(** * Adelos SDK: stealth-address protocol, raw-scalar signer, memo codec
      and transaction scanner.

    Shallow embedding of [src/crypto.ts], [src/utils.ts], [src/constants.ts]
    and [src/indexer.ts], together with the run-time primitives of
    ECMAScript and of the [@noble/ed25519] package these files call. *)

From Stdlib Require Import ZArith NArith PArith List String Ascii Bool Lia.
From Stdlib.Strings Require Import Byte.
From Stdlib Require Zmod.ZmodDef Zmod.ZmodBase.
Import ListNotations.

Local Open Scope string_scope.
Local Open Scope list_scope.
Local Open Scope Z_scope.

(* ================================================================= *)
(** ** ECMAScript primitives used by the sources *)

Module Js.

(** Exceptions that the modelled code can raise. *)
Inductive exn : Type :=
| SyntaxError   (* BigInt("0x") on an empty digit string *)
| RangeError    (* TypedArray.prototype.set past the end  *)
| NobleError    (* err(...) inside @noble/ed25519          *)
| RpcError.     (* a rejected Connection promise           *)

(** A computation either returns or throws. *)
Inductive result (A : Type) : Type :=
| Ok (a : A)
| Throw (e : exn).
Arguments Ok {A} a.
Arguments Throw {A} e.

Definition bind {A B} (m : result A) (k : A -> result B) : result B :=
  match m with
  | Ok a => k a
  | Throw e => Throw e
  end.

(** [try { return body } catch { return handler }] *)
Definition try_catch {A B} (body : result A) (ret : A -> B) (handler : B) : B :=
  match body with
  | Ok a => ret a
  | Throw _ => handler
  end.

(** Strings are sequences of code units; the embedding keeps the code units
    below 256, which covers every string the protocol itself produces. *)

Definition startsWith (s p : string) : bool := String.prefix p s.

(** [s.slice(a, b)] for [0 <= a <= b]. *)
Definition slice (s : string) (a b : nat) : string := substring a (b - a) s.

(** [s.slice(a)] for [0 <= a]. *)
Definition slice_from (s : string) (a : nat) : string :=
  substring a (String.length s - a) s.

Fixpoint repeat_char (c : ascii) (n : nat) : string :=
  match n with
  | O => EmptyString
  | S n' => String c (repeat_char c n')
  end.

(** [s.padStart(n, c)] with a one-character filler. *)
Definition padStart (s : string) (n : nat) (c : ascii) : string :=
  repeat_char c (n - String.length s) ++ s.

(** Digit of a value below 16, as [toString(16)] prints it. *)
Definition hexDigit (d : N) : ascii :=
  if (d <? 10)%N then ascii_of_N (48 + d) else ascii_of_N (87 + d).

(** Value of a hexadecimal digit, either case; [None] for any other
    character. *)
Definition hexValue (c : ascii) : option N :=
  let n := N_of_ascii c in
  if ((48 <=? n) && (n <=? 57))%N then Some (n - 48)%N
  else if ((97 <=? n) && (n <=? 102))%N then Some (n - 87)%N
  else if ((65 <=? n) && (n <=? 70))%N then Some (n - 55)%N
  else None.

(** Digits of [n] in base 16, most significant first, no leading zero;
    ["0"] for zero.  [fuel] bounds the number of digits. *)
Fixpoint hexDigits (fuel : nat) (n : N) : string :=
  match fuel with
  | O => EmptyString
  | S f =>
      if (n <? 16)%N then String (hexDigit n) EmptyString
      else hexDigits f (n / 16)%N ++ String (hexDigit (n mod 16)%N) EmptyString
  end.

(** [Number.prototype.toString(16)] on a non-negative integer. *)
Definition Number_toString16 (n : N) : string :=
  hexDigits (S (N.size_nat n)) n.

(** [BigInt.prototype.toString(16)]. *)
Definition BigInt_toString16 (z : Z) : string :=
  if z <? 0 then String "-" (Number_toString16 (Z.to_N (- z)))
  else Number_toString16 (Z.to_N z).

(** Value of a string of hexadecimal digits, [acc] being the value read so
    far; [None] as soon as a character is not a digit. *)
Fixpoint hexNumber (s : string) (acc : N) : option N :=
  match s with
  | EmptyString => Some acc
  | String c r =>
      match hexValue c with
      | Some d => hexNumber r (16 * acc + d)%N
      | None => None
      end
  end.

(** [BigInt("0x" + digits)]: a SyntaxError when [digits] is empty or holds a
    character that is not a hexadecimal digit. *)
Definition BigInt_0x (digits : string) : result Z :=
  match digits with
  | EmptyString => Throw SyntaxError
  | _ =>
      match hexNumber digits 0 with
      | Some n => Ok (Z.of_N n)
      | None => Throw SyntaxError
      end
  end.

(** White space skipped by [parseInt] (code units below 256). *)
Definition isWhiteSpace (c : ascii) : bool :=
  let n := N_of_ascii c in
  ((9 <=? n) && (n <=? 13) || (n =? 32) || (n =? 160))%N.

Fixpoint trimStart (s : string) : string :=
  match s with
  | String c r => if isWhiteSpace c then trimStart r else s
  | EmptyString => EmptyString
  end.

(** Longest prefix of hexadecimal digits, as their values. *)
Fixpoint leadingHex (s : string) : list N :=
  match s with
  | String c r =>
      match hexValue c with
      | Some d => d :: leadingHex r
      | None => []
      end
  | EmptyString => []
  end.

(** [parseInt(s, 16)]; [None] is NaN. *)
Definition parseInt16 (s : string) : option Z :=
  let s1 := trimStart s in
  let '(sign, s2) :=
    match s1 with
    | String "-" r => (-1, r)
    | String "+" r => (1, r)
    | _ => (1, s1)
    end in
  let s3 :=
    match s2 with
    | String "0" (String c r) =>
        if (Ascii.eqb c "x" || Ascii.eqb c "X")%bool then r else s2
    | _ => s2
    end in
  match leadingHex s3 with
  | [] => None
  | ds => Some (sign * Z.of_N (fold_left (fun a d => 16 * a + d)%N ds 0%N))
  end.

(** Storing a Number into a [Uint8Array] slot: NaN becomes 0, an integer is
    taken modulo 256. *)
Definition toUint8 (v : option Z) : byte :=
  match v with
  | None => x00
  | Some z =>
      match Byte.of_N (Z.to_N (z mod 256)) with
      | Some b => b
      | None => x00
      end
  end.

(** [target.set(source, offset)] on typed arrays. *)
Definition u8_set (target source : list byte) (offset : nat)
  : result (list byte) :=
  if (offset + List.length source <=? List.length target)%nat
  then Ok (firstn offset target ++ source
             ++ skipn (offset + List.length source) target)
  else Throw RangeError.

(** [new Uint8Array(n)] *)
Definition u8_new (n : nat) : list byte := repeat x00 n.

(** [new TextEncoder().encode(s)] on a string of ASCII characters. *)
Definition encode (s : string) : list byte := list_byte_of_string s.

End Js.

Import Js.

Declare Scope js_scope.
Notation "x <- m ;; k" := (Js.bind m (fun x => k))
  (at level 61, m at next level, right associativity) : js_scope.
Local Open Scope js_scope.

(* ================================================================= *)
(** ** [src/constants.ts] *)

Module Config.

Definition MEMO_PREFIX : string := "ADLSv1:".
Definition STEALTH_DOMAIN : string := "adelos:stealth:v1".
(** The base58 text of the memo program id. *)
Definition MEMO_PROGRAM_ID : string :=
  "MemoSq4gqABAXKb96qnH8TysNcWxMyWCqXgDLGmfcHr".

End Config.

(* ================================================================= *)
(** ** [src/utils.ts] *)

Module Utils.

(** [hexToBytes]: strips a leading ["0x"], allocates [length / 2] slots and
    stores [parseInt] of every two-character slice.  Nothing in it throws: a
    slice that is not hexadecimal parses to NaN and is stored as 0. *)
Definition hexToBytes (hex : string) : list byte :=
  let cleanHex := if startsWith hex "0x" then slice_from hex 2 else hex in
  let n := (String.length cleanHex / 2)%nat in
  map (fun i => toUint8 (parseInt16 (slice cleanHex (i * 2) (i * 2 + 2))))
      (seq 0 n).

(** [bytesToHex]: two lower-case digits for every byte. *)
Definition bytesToHex (bytes : list byte) : string :=
  String.concat ""
    (map (fun b => padStart (Number_toString16 (Byte.to_N b)) 2 "0") bytes).

End Utils.

Import Utils.

(* ================================================================= *)
(** ** Memo codec of [src/crypto.ts] *)

Module Memo.

Definition generateStealthMemo (ephemeralPubkey : list byte) : string :=
  Config.MEMO_PREFIX ++ bytesToHex ephemeralPubkey.

(** [parseStealthMemo]; [None] is [null].  The [try] block holds the call
    of [hexToBytes]. *)
Definition parseStealthMemo (memo : string) : option (list byte) :=
  if negb (startsWith memo Config.MEMO_PREFIX) then None
  else
    let pubkeyHex := slice_from memo (String.length Config.MEMO_PREFIX) in
    if negb (String.length pubkeyHex =? 64)%nat then None
    else try_catch (Ok (hexToBytes pubkeyHex)) Some None.

End Memo.

(* ================================================================= *)
(** ** The [@noble/ed25519] and [@noble/hashes] packages

    The curve arithmetic and the digests are supplied by two packages that
    are not part of the sources.  The embedding takes them as a record of
    operations; [Laws] states what the proofs use of them. *)

Module Noble.

(** [ed.CURVE.n], the order of the base point. *)
Definition CURVE_n : Z :=
  2 ^ 252 + 27742317777372353535851937790883648493.

(** [ed.etc.mod(a, b)]: [let r = a % b; return r >= 0n ? r : b + r]. *)
Definition etc_mod (a b : Z) : Z :=
  let r := Z.rem a b in
  if r >=? 0 then r else b + r.

Class Lib : Type := {
  Point : Type;
  (** [ExtendedPoint.ZERO] *)
  ZERO : Point;
  (** [ExtendedPoint.BASE] *)
  BASE : Point;
  (** [p.add(q)] *)
  add : Point -> Point -> Point;
  (** [p.toRawBytes()] *)
  toRawBytes : Point -> list byte;
  (** [ExtendedPoint.fromHex(hex)], which throws on a string that is not
      the encoding of a point *)
  fromHex : string -> result Point;
  (** [sha256(msg)] and [sha512(msg)] *)
  sha256 : list byte -> list byte;
  sha512 : list byte -> list byte
}.

Arguments ZERO {_}.
Arguments BASE {_}.
Arguments add {_} _ _.
Arguments toRawBytes {_} _.
Arguments fromHex {_} _.
Arguments sha256 {_} _.
Arguments sha512 {_} _.

(** The double-and-add ladder of [multiply]: [n] times [P]. *)
Definition smul {lib : Lib} (n : Z) (P : @Point lib) : @Point lib :=
  match n with
  | Zpos p => Pos.iter_op add p P
  | _ => ZERO
  end.

(** [p.multiply(n)]: the package refuses a scalar outside [0 < n < CURVE.n]
    ("cannot multiply by 0", "invalid scalar, must be < L") and otherwise
    runs the ladder. *)
Definition multiply {lib : Lib} (P : @Point lib) (n : Z)
  : result (@Point lib) :=
  if (0 <? n) && (n <? CURVE_n) then Ok (smul n P) else Throw NobleError.

(** What the proofs assume of the packages: [add] and [ZERO] form a monoid,
    the base point has order dividing [CURVE.n], a point encodes to 32 bytes
    and decodes back to itself, and the digests have their fixed lengths. *)
Record Laws (lib : Lib) : Prop := {
  add_assoc : forall P Q R : @Point lib, add P (add Q R) = add (add P Q) R;
  add_ZERO_l : forall P : @Point lib, add ZERO P = P;
  add_ZERO_r : forall P : @Point lib, add P ZERO = P;
  BASE_order : smul CURVE_n (@BASE lib) = ZERO;
  toRawBytes_length :
    forall P : @Point lib, List.length (toRawBytes P) = 32%nat;
  fromHex_toRawBytes :
    forall P : @Point lib, fromHex (bytesToHex (toRawBytes P)) = Ok P;
  sha256_length : forall m, List.length (@sha256 lib m) = 32%nat;
  sha512_length : forall m, List.length (@sha512 lib m) = 64%nat
}.

End Noble.

Import Noble.

(* ================================================================= *)
(** ** [src/crypto.ts] *)

Module Crypto.

Section WithLib.
Context {lib : Lib}.

(** [toScalar]: the low 32 bytes of a 64-byte buffer, otherwise the buffer
    itself, read little-endian and reduced modulo [CURVE.n]. *)
Definition toScalar (bytes : list byte) : result Z :=
  let cleanBytes :=
    if (List.length bytes =? 64)%nat then firstn 32 bytes else bytes in
  let reversed := rev cleanBytes in
  n <- BigInt_0x (bytesToHex reversed) ;;
  Ok (etc_mod n CURVE_n).

(** [generateEphemeralKeypair], on the bytes [secretKey] that
    [ed.utils.randomPrivateKey()] drew. *)
Definition generateEphemeralKeypair (secretKey : list byte)
  : result (list byte * list byte) :=
  scalar <- toScalar secretKey ;;
  P <- multiply BASE scalar ;;
  Ok (secretKey, toRawBytes P).

Definition derivePublicKey (secretKey : list byte) : result (list byte) :=
  scalar <- toScalar secretKey ;;
  P <- multiply BASE scalar ;;
  Ok (toRawBytes P).

Definition computeSharedSecret (ephemeralSk recipientMetaPk : list byte)
  : result (list byte) :=
  point <- fromHex (bytesToHex recipientMetaPk) ;;
  scalar <- toScalar ephemeralSk ;;
  Q <- multiply point scalar ;;
  Ok (sha256 (toRawBytes Q)).

Definition computeSharedSecretAsRecipient (metaSk ephemeralPk : list byte)
  : result (list byte) :=
  point <- fromHex (bytesToHex ephemeralPk) ;;
  scalar <- toScalar metaSk ;;
  Q <- multiply point scalar ;;
  Ok (sha256 (toRawBytes Q)).

Definition deriveStealthPubkey (metaPk sharedSecret : list byte)
  : result (list byte) :=
  let domain := encode Config.STEALTH_DOMAIN in
  let scalarBytes := sha256 (sharedSecret ++ domain) in
  scalar <- toScalar scalarBytes ;;
  metaPoint <- fromHex (bytesToHex metaPk) ;;
  T <- multiply BASE scalar ;;
  let stealthPoint := add metaPoint T in
  Ok (toRawBytes stealthPoint).

Definition recoverStealthSecretKey (metaSk sharedSecret : list byte)
  : result (list byte) :=
  let domain := encode Config.STEALTH_DOMAIN in
  let scalarBytes := sha256 (sharedSecret ++ domain) in
  scalar <- toScalar scalarBytes ;;
  metaScalar <- toScalar metaSk ;;
  let stealthScalar := etc_mod (metaScalar + scalar) CURVE_n in
  let hex := padStart (BigInt_toString16 stealthScalar) 64 "0" in
  Ok (rev (hexToBytes hex)).

(** [generateStealthAddress], on the drawn bytes of the ephemeral key. *)
Definition generateStealthAddress (drawn recipientMetaPk : list byte)
  : result (list byte * (list byte * list byte) * list byte * string) :=
  ephemeralKeypair <- generateEphemeralKeypair drawn ;;
  sharedSecret <- computeSharedSecret (fst ephemeralKeypair) recipientMetaPk ;;
  stealthPubkey <- deriveStealthPubkey recipientMetaPk sharedSecret ;;
  let memo := Memo.generateStealthMemo (snd ephemeralKeypair) in
  Ok (stealthPubkey, ephemeralKeypair, sharedSecret, memo).

(** [signWithScalar], on the bytes [rBytes] that
    [ed.utils.randomPrivateKey()] drew for the nonce. *)
Definition signWithScalar (message scalarBytes rBytes : list byte)
  : result (list byte) :=
  scalar <- toScalar scalarBytes ;;
  pubPoint <- multiply BASE scalar ;;
  let pubBytes := toRawBytes pubPoint in
  rScalar <- toScalar rBytes ;;
  R <- multiply BASE rScalar ;;
  let RBytes := toRawBytes R in
  let content :=
    u8_new (List.length RBytes + List.length pubBytes + List.length message) in
  content <- u8_set content RBytes 0 ;;
  content <- u8_set content pubBytes (List.length RBytes) ;;
  content <- u8_set content message
               (List.length RBytes + List.length pubBytes) ;;
  let hram := sha512 content in
  let hramReversed := rev hram in
  h <- BigInt_0x (bytesToHex hramReversed) ;;
  let k := etc_mod h CURVE_n in
  let S := etc_mod (rScalar + k * scalar) CURVE_n in
  let sHexPadded := padStart (BigInt_toString16 S) 64 "0" in
  let SBytes := rev (hexToBytes sHexPadded) in
  let signature := u8_new 64 in
  signature <- u8_set signature RBytes 0 ;;
  signature <- u8_set signature SBytes 32 ;;
  Ok signature.

End WithLib.

End Crypto.

Import Crypto.

(* ================================================================= *)
(** ** [src/types.ts] and [src/indexer.ts] *)

Module Indexer.

(** A public key of the ledger is held as its 32 bytes, a program id as its
    base58 text. *)
Definition PublicKey : Type := list byte.

Record StealthTransaction : Type := {
  signature : string;
  blockTime : option Z;
  stealthAddress : PublicKey;
  amount : Z;
  ephemeralPk : list byte
}.

(** [WithdrawableTransaction extends StealthTransaction]. *)
Record WithdrawableTransaction : Type := {
  w_signature : string;
  w_blockTime : option Z;
  w_stealthAddress : PublicKey;
  w_amount : Z;
  w_ephemeralPk : list byte;
  stealthSecretKey : list byte
}.

(** The parts of [ParsedTransactionWithMeta] that the scanner reads. *)
Record Instruction : Type := {
  programId : string;
  parsed : option string
}.

Record Meta : Type := {
  preBalances : list Z;
  postBalances : list Z
}.

Record ParsedTransaction : Type := {
  instructions : list Instruction;
  accountKeys : list PublicKey;
  meta : option Meta;
  tx_blockTime : option Z
}.

(** The two calls the scanner makes on its [Connection]; either promise can
    be rejected, and [getParsedTransaction] resolves to [null] for a
    transaction it does not find. *)
Record Connection : Type := {
  getSignaturesForAddress : string -> Z -> result (list string);
  getParsedTransaction : string -> result (option ParsedTransaction)
}.

(** The record that [attemptDecryption] returns on a match. *)
Record Detected : Type := {
  d_stealthAddress : PublicKey;
  d_amount : Z;
  d_ephemeralPk : list byte
}.

(** [arr.findIndex(f)], [-1] when no element satisfies [f]. *)
Fixpoint findIndex {A} (f : A -> bool) (l : list A) : Z :=
  match l with
  | [] => -1
  | a :: r =>
      if f a then 0
      else let i := findIndex f r in if i =? -1 then -1 else i + 1
  end.

(** [arr[idx] || 0] on an array of integers. *)
Definition at_or_0 (l : list Z) (idx : Z) : Z := nth (Z.to_nat idx) l 0.

(** [extractMemo]: the [parsed] field of the first memo-program instruction,
    [null] when there is none or when it is empty. *)
Definition extractMemo (tx : ParsedTransaction) : option string :=
  match find (fun i => String.eqb (programId i) Config.MEMO_PROGRAM_ID)
             (instructions tx) with
  | Some ix =>
      match parsed ix with
      | Some EmptyString => None
      | p => p
      end
  | None => None
  end.

Section WithLib.
Context {lib : Lib}.

Definition attemptDecryption (tx : ParsedTransaction)
  (metaSk metaPk : list byte) : result (option Detected) :=
  let memo := extractMemo tx in
  match Memo.parseStealthMemo (match memo with Some m => m | None => "" end)
  with
  | None => Ok None
  | Some ephemeralPk =>
      secret <- computeSharedSecretAsRecipient metaSk ephemeralPk ;;
      stealth <- deriveStealthPubkey metaPk secret ;;
      let expectedStealthHex := bytesToHex stealth in
      let accounts := accountKeys tx in
      let idx :=
        findIndex (fun a => String.eqb (bytesToHex a) expectedStealthHex)
                  accounts in
      if idx =? -1 then Ok None
      else
        let preBalances :=
          match meta tx with Some m => preBalances m | None => [] end in
        let postBalances :=
          match meta tx with Some m => postBalances m | None => [] end in
        let change := at_or_0 postBalances idx - at_or_0 preBalances idx in
        Ok (Some {| d_stealthAddress := nth (Z.to_nat idx) accounts [];
                    d_amount := if change >? 0 then change else 0;
                    d_ephemeralPk := ephemeralPk |})
  end.

Definition prepareWithdraw (stealthTx : StealthTransaction)
  (metaSk metaPk : list byte) : result WithdrawableTransaction :=
  sharedSecret <-
    computeSharedSecretAsRecipient metaSk (ephemeralPk stealthTx) ;;
  stealthSecretKey <- recoverStealthSecretKey metaSk sharedSecret ;;
  Ok {| w_signature := signature stealthTx;
        w_blockTime := blockTime stealthTx;
        w_stealthAddress := stealthAddress stealthTx;
        w_amount := amount stealthTx;
        w_ephemeralPk := ephemeralPk stealthTx;
        stealthSecretKey := stealthSecretKey |}.

(** The body of [for (const s of sigs)], with [results] the list pushed so
    far.  The calls to the logger leave the results untouched and are
    left out. *)
Fixpoint scanLoop (conn : Connection) (metaSk metaPk : list byte)
  (sigs : list string) (results : list StealthTransaction)
  : result (list StealthTransaction) :=
  match sigs with
  | [] => Ok results
  | s :: rest =>
      tx <- getParsedTransaction conn s ;;
      match tx with
      | None => scanLoop conn metaSk metaPk rest results
      | Some tx =>
          let memo := extractMemo tx in
          if negb (match memo with
                   | Some m => startsWith m Config.MEMO_PREFIX
                   | None => false
                   end)
          then scanLoop conn metaSk metaPk rest results
          else
            detected <- attemptDecryption tx metaSk metaPk ;;
            match detected with
            | Some d =>
                scanLoop conn metaSk metaPk rest
                  (results ++
                   [{| signature := s;
                       blockTime := tx_blockTime tx;
                       stealthAddress := d_stealthAddress d;
                       amount := d_amount d;
                       ephemeralPk := d_ephemeralPk d |}])
            | None => scanLoop conn metaSk metaPk rest results
            end
      end
  end.

Definition scanForStealthTransfers (conn : Connection)
  (metaSk metaPk : list byte) (limit : Z)
  : result (list StealthTransaction) :=
  sigs <- getSignaturesForAddress conn Config.MEMO_PROGRAM_ID limit ;;
  scanLoop conn metaSk metaPk sigs [].

End WithLib.

End Indexer.

Import Indexer.

(* ================================================================= *)
(** ** Reference definitions used to state the properties *)

Module Ref.

(** Value of a byte. *)
Definition byteZ (b : byte) : Z := Z.of_N (Byte.to_N b).

(** The integer that a buffer denotes, least significant byte first. *)
Definition le_int (bs : list byte) : Z :=
  fold_right (fun b acc => byteZ b + 256 * acc) 0 bs.

(** The byte of value [z mod 256]. *)
Definition byte_of_Z (z : Z) : byte :=
  match Byte.of_N (Z.to_N (z mod 256)) with
  | Some b => b
  | None => x00
  end.

(** The [n] low bytes of [z], least significant first. *)
Fixpoint le_bytes (n : nat) (z : Z) : list byte :=
  match n with
  | O => []
  | S n' => byte_of_Z z :: le_bytes n' (z / 256)
  end.

(** A string of [n] digits for [v mod 16^n], most significant first. *)
Fixpoint fixedHex (n : nat) (v : N) : string :=
  match n with
  | O => EmptyString
  | S n' => fixedHex n' (v / 16)%N ++ String (hexDigit (v mod 16)%N) EmptyString
  end.

(** The loop of [hexToBytes], on the string left once ["0x"] is removed. *)
Definition decodeLoop (cleanHex : string) : list byte :=
  map (fun i => toUint8 (parseInt16 (slice cleanHex (i * 2) (i * 2 + 2))))
      (seq 0 (String.length cleanHex / 2)).

(** The result of [hexToBytes] on a string without ["0x"] in front, two
    characters at a time. *)
Fixpoint pairs (s : string) : list byte :=
  match s with
  | String a (String b r) =>
      toUint8 (parseInt16 (String a (String b EmptyString))) :: pairs r
  | _ => []
  end.

(** Whether every character of [s] is one of [0-9a-f]. *)
Fixpoint lowerHex (s : string) : bool :=
  match s with
  | EmptyString => true
  | String c r =>
      let n := N_of_ascii c in
      (((48 <=? n) && (n <=? 57)) || ((97 <=? n) && (n <=? 102)))%N
      && lowerHex r
  end.

(** The balance recorded for account [idx] on one side of the transaction's
    metadata, 0 when the metadata or the entry is absent. *)
Definition balance (side : Meta -> list Z) (tx : ParsedTransaction)
  (idx : nat) : Z :=
  match meta tx with
  | Some m => nth idx (side m) 0
  | None => 0
  end.

(** Whether the connection resolves [s] to a transaction. *)
Definition found (conn : Connection) (s : string) : bool :=
  match getParsedTransaction conn s with
  | Ok (Some _) => true
  | _ => false
  end.

End Ref.

Import Ref.

(* ================================================================= *)
(** ** A small model of the packages

    The integers modulo [CURVE.n] under addition, generated by 1, with the
    32-byte little-endian encoding and a toy digest.  It satisfies [Laws]
    and runs inside the proof assistant, which the examples below use. *)

Module ZL.

Definition digest (n : nat) (m : list byte) : list byte :=
  le_bytes n (fold_left (fun acc b => acc * 257 + byteZ b + 1) m 7).

Definition decode (s : string) : result (Zmod.ZmodDef.Zmod.Zmod CURVE_n) :=
  let bs := hexToBytes s in
  if ((List.length bs =? 32)%nat && (le_int bs <? CURVE_n))%bool
  then Ok (Zmod.ZmodDef.Zmod.of_Z CURVE_n (le_int bs))
  else Throw NobleError.

Definition lib : Lib := {|
  Point := Zmod.ZmodDef.Zmod.Zmod CURVE_n;
  ZERO := Zmod.ZmodDef.Zmod.zero;
  BASE := Zmod.ZmodDef.Zmod.one;
  add := Zmod.ZmodDef.Zmod.add;
  toRawBytes := fun P => le_bytes 32 (Zmod.ZmodDef.Zmod.to_Z P);
  fromHex := decode;
  sha256 := digest 32;
  sha512 := digest 64
|}.

(** Sample inputs. *)
Definition metaSk : list byte := le_bytes 32 123456789.
Definition ephSk : list byte := le_bytes 32 987654321.
Definition nonce : list byte := le_bytes 32 424242.
Definition message : list byte := [x68; x65; x6c; x6c; x6f].
Definition zeros32 : list byte := repeat x00 32.

Definition value (r : result (list byte)) : list byte :=
  match r with
  | Ok b => b
  | Throw _ => []
  end.

Definition metaPk : list byte :=
  Eval vm_compute in value (derivePublicKey (lib := lib) metaSk).
Definition ephPk : list byte :=
  Eval vm_compute in value (derivePublicKey (lib := lib) ephSk).
Definition sharedSecret : list byte :=
  Eval vm_compute in
    value (computeSharedSecret (lib := lib) ephSk metaPk).
Definition stealthPk : list byte :=
  Eval vm_compute in
    value (deriveStealthPubkey (lib := lib) metaPk sharedSecret).


(** A transfer of 500 to the stealth address, and a transaction in which the
    balance of that address goes down. *)
Definition sender : PublicKey := le_bytes 32 77.

Definition memoIx : Instruction :=
  {| programId := Config.MEMO_PROGRAM_ID;
     parsed := Some (Memo.generateStealthMemo ephPk) |}.

Definition transferIx : Instruction :=
  {| programId := "11111111111111111111111111111111"; parsed := None |}.

Definition tx_received : ParsedTransaction :=
  {| instructions := [transferIx; memoIx];
     accountKeys := [sender; stealthPk];
     meta := Some {| preBalances := [1000; 0]; postBalances := [400; 500] |};
     tx_blockTime := Some 1700000000 |}.

Definition tx_paid_out : ParsedTransaction :=
  {| instructions := [transferIx; memoIx];
     accountKeys := [sender; stealthPk];
     meta := Some {| preBalances := [1000; 700];
                     postBalances := [1300; 200] |};
     tx_blockTime := Some 1700000001 |}.

Definition received : Detected :=
  {| d_stealthAddress := stealthPk; d_amount := 500;
     d_ephemeralPk := ephPk |}.

Definition stealthTx : StealthTransaction :=
  {| signature := "s2"; blockTime := Some 1700000000;
     stealthAddress := stealthPk; amount := 500;
     ephemeralPk := ephPk |}.

Definition withdrawable : WithdrawableTransaction :=
  Eval vm_compute in
    match prepareWithdraw (lib := lib) stealthTx metaSk metaPk with
    | Ok w => w
    | Throw _ =>
        {| w_signature := ""; w_blockTime := None; w_stealthAddress := [];
           w_amount := 0; w_ephemeralPk := []; stealthSecretKey := [] |}
    end.

(** A ledger that does not find the first of two signatures, and one whose
    fetch of the first signature is rejected. *)
Definition conn_missing : Connection :=
  {| getSignaturesForAddress := fun _ _ => Ok ["s1"; "s2"];
     getParsedTransaction := fun s =>
       if String.eqb s "s2" then Ok (Some tx_received) else Ok None |}.

Definition conn_rejecting : Connection :=
  {| getSignaturesForAddress := fun _ _ => Ok ["s1"; "s2"];
     getParsedTransaction := fun s =>
       if String.eqb s "s2" then Ok (Some tx_received)
       else Throw RpcError |}.

End ZL.

(* ================================================================= *)
(** ** [src/utils.ts], continued, and the instruction table of the IDL *)

Module Registry.

(** [isValidMetaPubkey]: 32 bytes that are not all zero. *)
Definition isValidMetaPubkey (metaPubkey : list byte) : bool :=
  if negb (List.length metaPubkey =? 32)%nat then false
  else negb (forallb (fun b => Byte.eqb b x00) metaPubkey).

(** The object literal of [getDiscriminator], in source order. *)
Definition discriminators : list (string * list byte) :=
  [ ("register_identity", [xa4; x76; xe3; xb1; x2f; xb0; xbb; xf8]);
    ("update_identity", [x82; x36; x58; x68; xde; x7c; xee; xfc]);
    ("close_registry", [x4c; x20; x9a; xb4; x33; x9f; xda; x66]) ].

(** The property names that an object literal inherits from
    [Object.prototype]; [discriminators[name]] is defined for them too. *)
Definition inheritedKeys : list string :=
  [ "constructor"; "hasOwnProperty"; "isPrototypeOf"; "propertyIsEnumerable";
    "toLocaleString"; "toString"; "valueOf"; "__proto__";
    "__defineGetter__"; "__defineSetter__"; "__lookupGetter__";
    "__lookupSetter__" ].

(** What [discriminators[instructionName]] evaluates to when it is truthy. *)
Inductive member : Type :=
| Bytes (disc : list byte)
| Inherited.

Fixpoint ownProperty (name : string) (obj : list (string * list byte))
  : option (list byte) :=
  match obj with
  | [] => None
  | (k, v) :: r => if String.eqb name k then Some v else ownProperty name r
  end.

(** [getDiscriminator]; [None] is the thrown
    [Error("Unknown instruction: ...")]. *)
Definition getDiscriminator (instructionName : string) : option member :=
  match ownProperty instructionName discriminators with
  | Some disc => Some (Bytes disc)
  | None =>
      if existsb (String.eqb instructionName) inheritedKeys
      then Some Inherited
      else None
  end.

(** [IDL.instructions], as pairs of [name] and [discriminator]. *)
Definition IDL_instructions : list (string * list byte) :=
  [ ("close_registry", [x4c; x20; x9a; xb4; x33; x9f; xda; x66]);
    ("register_identity", [xa4; x76; xe3; xb1; x2f; xb0; xbb; xf8]);
    ("update_identity", [x82; x36; x58; x68; xde; x7c; xee; xfc]) ].

End Registry.

(* ================================================================= *)
(** ** [createWithdrawTransaction] of [src/index.ts] *)

Module Sdk.

(** Why a call of the SDK fails: one of its own [throw new Error]
    statements, a failed assertion of [@solana/web3.js], or an exception of
    the layers below. *)
Inductive failure : Type :=
| InsufficientFunds (balance fee : Z)
| SignatureLength
| Raised (e : exn).

Inductive outcome (A : Type) : Type :=
| Done (a : A)
| Failed (f : failure).
Arguments Done {A} a.
Arguments Failed {A} f.

Definition lift {A} (r : result A) : outcome A :=
  match r with
  | Ok a => Done a
  | Throw e => Failed (Raised e)
  end.

Definition andThen {A B} (m : outcome A) (k : A -> outcome B) : outcome B :=
  match m with
  | Done a => k a
  | Failed f => Failed f
  end.

(** [VersionedTransaction]: the serialized message and the signatures added
    to it. *)
Record VersionedTransaction : Type := {
  vt_message : list byte;
  vt_signatures : list (PublicKey * list byte)
}.

(** The calls made on the [Connection] and on [@solana/web3.js]. *)
Record Ledger : Type := {
  (** [connection.getBalance(address)] *)
  getBalance : PublicKey -> result Z;
  (** [connection.getLatestBlockhash()], its [blockhash] field *)
  getLatestBlockhash : result string;
  (** [connection.sendRawTransaction(raw)] *)
  sendRawTransaction : list byte -> result string;
  (** [connection.confirmTransaction(sig, "confirmed")]; the resolved value,
      which may report an on-chain error, is not read *)
  confirmTransaction : string -> result (option string);
  (** [TransactionInstruction] *)
  Ix : Type;
  (** [SystemProgram.transfer({fromPubkey, toPubkey, lamports})] *)
  transfer : PublicKey -> PublicKey -> Z -> result Ix;
  (** [new TransactionMessage({payerKey, recentBlockhash, instructions})
      .compileToV0Message().serialize()] *)
  compileAndSerialize : PublicKey -> string -> list Ix -> result (list byte);
  (** [tx.serialize()] *)
  serializeTransaction : VersionedTransaction -> list byte
}.

Definition FEE_BUFFER : Z := 5000.

(** The value of a Number expression whose exact result is the integer [x]:
    the nearest double, ties to the even significand.  Integers below 2^53
    in absolute value are kept; above, the last [Z.log2 |x| - 52] bits are
    rounded away. *)
Definition roundToDouble (x : Z) : Z :=
  let a := Z.abs x in
  let e := Z.log2 a - 52 in
  if e <=? 0 then x
  else
    let ulp := 2 ^ e in
    let q := a / ulp in
    let r := a mod ulp in
    let q' :=
      if 2 * r <? ulp then q
      else if ulp <? 2 * r then q + 1
      else if Z.even q then q else q + 1 in
    Z.sgn x * (q' * ulp).

(** [tx.addSignature(publicKey, signature)] on a transaction whose fee
    payer is [publicKey]: the package asserts that the signature has 64
    bytes. *)
Definition addSignature (message : list byte) (publicKey : PublicKey)
  (signature : list byte) : outcome VersionedTransaction :=
  if (List.length signature =? 64)%nat
  then Done {| vt_message := message;
               vt_signatures := [(publicKey, signature)] |}
  else Failed SignatureLength.

Section WithLib.
Context {lib : Lib}.

(** [createWithdrawTransaction], on the bytes [rBytes] drawn for the nonce
    of [signWithScalar]; [amountLamports = None] is the omitted argument.
    The balance is a Number that holds an integer, and
    [BigInt(balance - FEE_BUFFER)] subtracts in double precision before it
    converts. *)
Definition createWithdrawTransaction (ledger : Ledger) (rBytes : list byte)
  (stealthSecretKey : list byte) (stealthAddress destination : PublicKey)
  (amountLamports : option Z)
  : outcome (VersionedTransaction * string) :=
  andThen
    (match amountLamports with
     | Some a => Done a
     | None =>
         andThen (lift (getBalance ledger stealthAddress)) (fun balance =>
         if balance <=? FEE_BUFFER
         then Failed (InsufficientFunds balance FEE_BUFFER)
         else Done (roundToDouble (balance - FEE_BUFFER)))
     end) (fun finalAmount =>
  andThen (lift (transfer ledger stealthAddress destination finalAmount))
    (fun ix =>
  andThen (lift (getLatestBlockhash ledger)) (fun blockhash =>
  andThen (lift (compileAndSerialize ledger stealthAddress blockhash [ix]))
    (fun serializedMessage =>
  andThen (lift (signWithScalar serializedMessage stealthSecretKey rBytes))
    (fun signature =>
  andThen (addSignature serializedMessage stealthAddress signature)
    (fun tx =>
  andThen (lift (sendRawTransaction ledger (serializeTransaction ledger tx)))
    (fun sig =>
  andThen (lift (confirmTransaction ledger sig)) (fun _ =>
  Done (tx, sig))))))))).

End WithLib.

End Sdk.

(* ================================================================= *)
(** ** Reference definitions for the further properties *)

Module RefMore.

Section WithLib.
Context {lib : Lib}.

(** What one pass of the loop of [scanForStealthTransfers] adds for the
    signature [s]: nothing, one result, or an exception. *)
Definition step (conn : Connection) (metaSk metaPk : list byte) (s : string)
  : result (option StealthTransaction) :=
  tx <- getParsedTransaction conn s ;;
  match tx with
  | None => Ok None
  | Some tx =>
      match extractMemo tx with
      | None => Ok None
      | Some m =>
          if startsWith m Config.MEMO_PREFIX
          then
            detected <- attemptDecryption tx metaSk metaPk ;;
            Ok (option_map
                  (fun d => {| signature := s;
                               blockTime := tx_blockTime tx;
                               stealthAddress := d_stealthAddress d;
                               amount := d_amount d;
                               ephemeralPk := d_ephemeralPk d |})
                  detected)
          else Ok None
      end
  end.

(** Whether the transaction of [s] is reported by the scan. *)
Definition detects (conn : Connection) (metaSk metaPk : list byte)
  (s : string) : bool :=
  match step conn metaSk metaPk s with
  | Ok (Some _) => true
  | _ => false
  end.

End WithLib.

(** The scalar that a buffer denotes for [toScalar]. *)
Definition scalarOf (bytes : list byte) : Z :=
  le_int (if (List.length bytes =? 64)%nat then firstn 32 bytes else bytes)
  mod CURVE_n.

(** The challenge of a signature [sig] on [message] under the encoded
    public key [A]: the hash of [R || A || message] reduced modulo L. *)
Definition challenge {lib : Lib} (sig A message : list byte) : Z :=
  le_int (sha512 (firstn 32 sig ++ A ++ message)) mod CURVE_n.

End RefMore.

Import Registry RefMore.

(* ================================================================= *)
(** ** More sample data in the small model *)

Module Samples.

(** A secret key that differs from [ZL.metaSk] by the group order. *)
Definition metaSk_plus_L : list byte := le_bytes 32 (123456789 + CURVE_n).

Definition nonce_pk : list byte :=
  Eval vm_compute in ZL.value (derivePublicKey (lib := ZL.lib) ZL.nonce).

Definition stealthSk : list byte :=
  Eval vm_compute in
    ZL.value (recoverStealthSecretKey (lib := ZL.lib) ZL.metaSk ZL.sharedSecret).

Definition message2 : list byte := [x62; x79; x65].

Definition memo : string :=
  Eval vm_compute in Memo.generateStealthMemo ZL.ephPk.

Definition sig1 : list byte :=
  Eval vm_compute in
    ZL.value (signWithScalar (lib := ZL.lib) ZL.message stealthSk ZL.nonce).

Definition sig2 : list byte :=
  Eval vm_compute in
    ZL.value (signWithScalar (lib := ZL.lib) message2 stealthSk ZL.nonce).



(** A ledger for [createWithdrawTransaction]: the stealth address holds
    7500 lamports; a message lists payer, destination and amount. *)
Definition ledger (balance : Z) : Sdk.Ledger :=
  {| Sdk.getBalance := fun _ => Ok balance;
     Sdk.getLatestBlockhash := Ok "blockhash";
     Sdk.sendRawTransaction := fun _ => Ok "sig";
     Sdk.confirmTransaction := fun _ => Ok None;
     Sdk.Ix := PublicKey * PublicKey * Z;
     Sdk.transfer := fun a b n => Ok (a, b, n);
     Sdk.compileAndSerialize := fun payer _ ixs =>
       Ok (payer ++ flat_map (fun '(a, b, n) => a ++ b ++ le_bytes 8 n) ixs);
     Sdk.serializeTransaction := fun tx =>
       flat_map snd (Sdk.vt_signatures tx) ++ Sdk.vt_message tx |}.

(** A ledger whose first signature is a transfer to the recipient and whose
    fetch of the second signature is rejected. *)
Definition conn_found_then_rejected : Connection :=
  {| getSignaturesForAddress := fun _ _ => Ok ["s2"; "s1"];
     getParsedTransaction := fun s =>
       if String.eqb s "s2" then Ok (Some ZL.tx_received)
       else Throw RpcError |}.

Definition withdraw_message : list byte :=
  Eval vm_compute in
    ZL.stealthPk ++ ZL.stealthPk ++ ZL.sender ++ le_bytes 8 2500.

Definition withdraw_signature : list byte :=
  Eval vm_compute in
    ZL.value (signWithScalar (lib := ZL.lib) withdraw_message stealthSk
                ZL.nonce).

(** What [createWithdrawTransaction] returns on [ledger 7500]. *)
Definition withdrawn : Sdk.VersionedTransaction * string :=
  ({| Sdk.vt_message := withdraw_message;
      Sdk.vt_signatures := [(ZL.stealthPk, withdraw_signature)] |}, "sig").

End Samples.

(* ================================================================= *)
(** * Properties *)

(** ** Strings *)

Module StringFacts.

Lemma append_empty_r (s : string) : (s ++ "")%string = s.
Proof. induction s as [|c s IH]; simpl; [reflexivity | now rewrite IH]. Qed.

Lemma append_assoc (a b c : string) :
  ((a ++ b) ++ c = a ++ (b ++ c))%string.
Proof. induction a as [|x a IH]; simpl; [reflexivity | now rewrite IH]. Qed.

Lemma length_append (a b : string) :
  String.length (a ++ b)%string = (String.length a + String.length b)%nat.
Proof. induction a as [|x a IH]; simpl; [reflexivity | now rewrite IH]. Qed.

Lemma substring_0_0 (s : string) : substring 0 0 s = "".
Proof. destruct s; reflexivity. Qed.

Lemma substring_whole (s : string) : substring 0 (String.length s) s = s.
Proof. induction s as [|c s IH]; simpl; [reflexivity | now rewrite IH]. Qed.

Lemma substring_drop (p s : string) (m : nat) :
  substring (String.length p) m (p ++ s)%string = substring 0 m s.
Proof. induction p as [|c p IH]; simpl; [reflexivity | exact IH]. Qed.

Lemma length_substring (s : string) (n m : nat) :
  String.length (substring n m s) = Nat.min m (String.length s - n).
Proof.
  revert n m; induction s as [|c s IH]; intros n m.
  - destruct n, m; reflexivity.
  - destruct n as [|n].
    + destruct m as [|m]; simpl; [reflexivity|].
      rewrite IH. now rewrite Nat.sub_0_r.
    + simpl. apply IH.
Qed.

Lemma prefix_append (p s : string) : String.prefix p (p ++ s)%string = true.
Proof.
  induction p as [|c p IH]; simpl.
  - now destruct s.
  - destruct (ascii_dec c c) as [_|ne]; [exact IH | now elim ne].
Qed.

Lemma slice_from_append (p s : string) :
  slice_from (p ++ s)%string (String.length p) = s.
Proof.
  unfold slice_from. rewrite substring_drop, length_append.
  replace (String.length p + String.length s - String.length p)%nat
    with (String.length s) by lia.
  apply substring_whole.
Qed.

Lemma length_slice_from (s : string) (n : nat) :
  String.length (slice_from s n) = (String.length s - n)%nat.
Proof. unfold slice_from. rewrite length_substring. lia. Qed.

Lemma length_repeat_char (c : ascii) (n : nat) :
  String.length (repeat_char c n) = n.
Proof. induction n as [|n IH]; simpl; [reflexivity | now rewrite IH]. Qed.

Lemma concat_empty_cons (x : string) (xs : list string) :
  String.concat "" (x :: xs) = (x ++ String.concat "" xs)%string.
Proof.
  destruct xs as [|y ys]; simpl.
  - now rewrite append_empty_r.
  - reflexivity.
Qed.

End StringFacts.

(** ** The hexadecimal codec of [utils.ts] *)

Module HexFacts.

Import StringFacts.

(** The two digits that [bytesToHex] prints for a byte. *)
Lemma hex_of_byte (b : byte) :
  padStart (Number_toString16 (Byte.to_N b)) 2 "0"
  = String (hexDigit (Byte.to_N b / 16)) 
      (String (hexDigit (Byte.to_N b mod 16)) "").
Proof. destruct b; reflexivity. Qed.

Lemma bytesToHex_cons (b : byte) (bs : list byte) :
  bytesToHex (b :: bs)
  = String (hexDigit (Byte.to_N b / 16))
      (String (hexDigit (Byte.to_N b mod 16)) (bytesToHex bs)).
Proof.
  unfold bytesToHex. rewrite map_cons, concat_empty_cons, hex_of_byte.
  reflexivity.
Qed.

Lemma bytesToHex_app (a b : list byte) :
  bytesToHex (a ++ b) = (bytesToHex a ++ bytesToHex b)%string.
Proof.
  induction a as [|x a IH]; [reflexivity|].
  rewrite <- app_comm_cons, !bytesToHex_cons, IH. reflexivity.
Qed.

Lemma length_bytesToHex (bs : list byte) :
  String.length (bytesToHex bs) = (2 * List.length bs)%nat.
Proof.
  induction bs as [|b bs IH]; [reflexivity|].
  rewrite bytesToHex_cons. simpl String.length. rewrite IH. simpl. lia.
Qed.

(** [parseInt] reads back the byte that the two digits came from. *)
Lemma parse_hex_of_byte (b : byte) :
  toUint8 (parseInt16
    (String (hexDigit (Byte.to_N b / 16))
       (String (hexDigit (Byte.to_N b mod 16)) ""))) = b.
Proof. destruct b; reflexivity. Qed.

Lemma startsWith_0x_bytesToHex (bs : list byte) :
  startsWith (bytesToHex bs) "0x" = false.
Proof.
  destruct bs as [|b bs]; [reflexivity|].
  rewrite bytesToHex_cons. destruct b; reflexivity.
Qed.

Lemma decodeLoop_step (a b : ascii) (r : string) :
  decodeLoop (String a (String b r))
  = toUint8 (parseInt16 (String a (String b ""))) :: decodeLoop r.
Proof.
  unfold decodeLoop.
  change (String.length (String a (String b r)))
    with (1 * 2 + String.length r)%nat.
  rewrite Nat.div_add_l by discriminate.
  simpl Nat.add. rewrite <- cons_seq, map_cons. f_equal.
  - unfold slice. simpl. now rewrite substring_0_0.
  - rewrite <- seq_shift, map_map. apply map_ext. intro i.
    unfold slice.
    replace (S i * 2 + 2 - S i * 2)%nat with 2%nat by lia.
    replace (i * 2 + 2 - i * 2)%nat with 2%nat by lia.
    reflexivity.
Qed.

Lemma decodeLoop_pairs (s : string) : decodeLoop s = pairs s.
Proof.
  enough (H : decodeLoop s = pairs s
              /\ forall c, decodeLoop (String c s) = pairs (String c s))
    by apply H.
  induction s as [|c s [IH1 IH2]]; split.
  - reflexivity.
  - intro c. reflexivity.
  - apply IH2.
  - intro c0. rewrite decodeLoop_step. simpl. now rewrite IH1.
Qed.

Lemma hexToBytes_clean (s : string) :
  startsWith s "0x" = false -> hexToBytes s = pairs s.
Proof.
  intro H. unfold hexToBytes. rewrite H. apply decodeLoop_pairs.
Qed.

Lemma hexToBytes_0x (s : string) :
  hexToBytes ("0x" ++ s)%string = pairs s.
Proof.
  unfold hexToBytes.
  replace (startsWith ("0x" ++ s)%string "0x") with true
    by (symmetry; apply (prefix_append "0x")).
  pose proof (slice_from_append "0x" s) as E. cbn [String.length] in E.
  rewrite E. apply decodeLoop_pairs.
Qed.

Lemma pairs_bytesToHex (bs : list byte) : pairs (bytesToHex bs) = bs.
Proof.
  induction bs as [|b bs IH]; [reflexivity|].
  rewrite bytesToHex_cons. cbn [pairs].
  now rewrite parse_hex_of_byte, IH.
Qed.

Lemma hexToBytes_bytesToHex (bs : list byte) :
  hexToBytes (bytesToHex bs) = bs.
Proof.
  rewrite hexToBytes_clean by apply startsWith_0x_bytesToHex.
  apply pairs_bytesToHex.
Qed.

Lemma length_decodeLoop (s : string) :
  List.length (decodeLoop s) = (String.length s / 2)%nat.
Proof. unfold decodeLoop. now rewrite length_map, length_seq. Qed.

Lemma length_hexToBytes (s : string) :
  List.length (hexToBytes s)
  = if startsWith s "0x" then ((String.length s - 2) / 2)%nat
    else (String.length s / 2)%nat.
Proof.
  unfold hexToBytes.
  fold (decodeLoop (if startsWith s "0x" then slice_from s 2 else s)).
  rewrite length_decodeLoop.
  destruct (startsWith s "0x"); [|reflexivity].
  now rewrite length_slice_from.
Qed.

End HexFacts.

(** ** The memo codec *)

Module MemoProofs.

Import StringFacts HexFacts Memo.

Lemma lowerHex_bytesToHex (bs : list byte) : lowerHex (bytesToHex bs) = true.
Proof.
  induction bs as [|b bs IH]; [reflexivity|].
  rewrite bytesToHex_cons. cbn [lowerHex]. rewrite IH.
  destruct b; reflexivity.
Qed.


(** On a memo that passes both tests the result is [hexToBytes] of the
    payload, whatever its characters are. *)
Lemma parseStealthMemo_payload (payload : string) :
  String.length payload = 64%nat ->
  parseStealthMemo (Config.MEMO_PREFIX ++ payload)%string
  = Some (hexToBytes payload).
Proof.
  intro H. unfold parseStealthMemo.
  replace (startsWith (Config.MEMO_PREFIX ++ payload)%string Config.MEMO_PREFIX)
    with true by (symmetry; apply prefix_append).
  rewrite slice_from_append, H. reflexivity.
Qed.

(** The returned key has 32 bytes, except for a payload that starts with
    ["0x"], where it has 31. *)
Lemma parseStealthMemo_length (memo : string) (pk : list byte) :
  parseStealthMemo memo = Some pk ->
  List.length pk
  = if startsWith (slice_from memo (String.length Config.MEMO_PREFIX)) "0x"
    then 31%nat else 32%nat.
Proof.
  unfold parseStealthMemo.
  change (String.length Config.MEMO_PREFIX) with 7%nat.
  destruct (startsWith memo Config.MEMO_PREFIX); cbn [negb];
    [|discriminate].
  destruct (Nat.eqb_spec (String.length (slice_from memo 7)) 64)
    as [e|ne]; cbn [negb]; [|discriminate].
  intro H. cbv [try_catch] in H. injection H as <-.
  rewrite length_hexToBytes, e.
  destruct (startsWith _ "0x"); reflexivity.
Qed.

Lemma parseStealthMemo_generated (pk : list byte) :
  List.length pk = 32%nat ->
  parseStealthMemo (generateStealthMemo pk) = Some pk.
Proof.
  intro H. unfold generateStealthMemo.
  rewrite parseStealthMemo_payload
    by (rewrite length_bytesToHex, H; reflexivity).
  now rewrite hexToBytes_bytesToHex.
Qed.

(** C6. The memo of a 32-byte key is the prefix followed by 64 lower-case
    hexadecimal digits, and decoding it returns the key:
    [parseStealthMemo (generateStealthMemo pk) = pk]. *)
Theorem memo_roundtrip (pk : list byte) :
  List.length pk = 32%nat ->
  generateStealthMemo pk = ("ADLSv1:" ++ bytesToHex pk)%string
  /\ String.length (bytesToHex pk) = 64%nat
  /\ lowerHex (bytesToHex pk) = true
  /\ parseStealthMemo (generateStealthMemo pk) = Some pk.
Proof.
  intro H.
  assert (L : String.length (bytesToHex pk) = 64%nat)
    by (rewrite length_bytesToHex, H; reflexivity).
  repeat split.
  - exact L.
  - apply lowerHex_bytesToHex.
  - apply parseStealthMemo_generated, H.
Qed.

Lemma memo_roundtrip_witness :
  List.length ZL.metaSk = 32%nat
  /\ parseStealthMemo (generateStealthMemo ZL.metaSk) = Some ZL.metaSk.
Proof.
  split; [reflexivity|].
  apply (memo_roundtrip ZL.metaSk). reflexivity.
Defined.

(** C5. A 64-character payload that is not hexadecimal is not refused: on
    the prefix followed by 64 times [z], [parseStealthMemo] returns 32 zero
    bytes. *)
Theorem parseStealthMemo_nonhex_payload :
  parseStealthMemo ("ADLSv1:" ++ repeat_char "z" 64)%string
  = Some (repeat x00 32).
Proof. vm_compute. reflexivity. Qed.

(** C9. A 64-character payload that starts with ["0x"] yields a key of 31
    bytes. *)
Theorem parseStealthMemo_0x_payload :
  exists pk,
    parseStealthMemo ("ADLSv1:0x" ++ repeat_char "0" 62)%string = Some pk
    /\ List.length pk = 31%nat.
Proof. eexists. split; vm_compute; reflexivity. Qed.

End MemoProofs.

(** ** Scalars: [toScalar] and the fixed-width encoding *)

Module ScalarFacts.

Import StringFacts HexFacts.

Lemma CURVE_n_pos : 0 < CURVE_n.
Proof. reflexivity. Qed.

Lemma CURVE_n_lt : CURVE_n < 16 ^ 64.
Proof. reflexivity. Qed.

Lemma etc_mod_nonneg (a b : Z) : 0 <= a -> 0 < b -> etc_mod a b = a mod b.
Proof.
  intros Ha Hb. unfold etc_mod. cbv zeta.
  rewrite Z.rem_mod_nonneg by lia.
  pose proof (Z.mod_pos_bound a b Hb) as B.
  destruct (Z.geb_spec (a mod b) 0); [reflexivity | lia].
Qed.

Lemma hexValue_hexDigit (d : N) : (d < 16)%N -> hexValue (hexDigit d) = Some d.
Proof.
  intro H.
  assert (E : (d = 0 \/ d = 1 \/ d = 2 \/ d = 3 \/ d = 4 \/ d = 5 \/ d = 6
               \/ d = 7 \/ d = 8 \/ d = 9 \/ d = 10 \/ d = 11 \/ d = 12
               \/ d = 13 \/ d = 14 \/ d = 15)%N) by lia.
  repeat (destruct E as [->|E]; [reflexivity|]). now subst d.
Qed.

Lemma hexNumber_app (s t : string) (acc : N) :
  hexNumber (s ++ t)%string acc
  = match hexNumber s acc with
    | Some a => hexNumber t a
    | None => None
    end.
Proof.
  revert acc; induction s as [|c s IH]; intro acc; cbn [append hexNumber].
  - reflexivity.
  - destruct (hexValue c); [apply IH | reflexivity].
Qed.

(** Value of a buffer read most significant byte first, from [acc]. *)
Lemma hexNumber_bytesToHex (bs : list byte) (acc : N) :
  hexNumber (bytesToHex bs) acc
  = Some (fold_left (fun a b => 256 * a + Byte.to_N b)%N bs acc).
Proof.
  revert acc; induction bs as [|b bs IH]; intro acc; [reflexivity|].
  rewrite bytesToHex_cons. cbn [hexNumber fold_left].
  pose proof (Byte.to_N_bounded b) as Hb.
  rewrite !hexValue_hexDigit.
  - rewrite IH. do 2 f_equal.
    pose proof (N.div_mod (Byte.to_N b) 16). lia.
  - apply N.mod_lt. discriminate.
  - apply N.Div0.div_lt_upper_bound. lia.
Qed.

Lemma be_fold_le_int (bs : list byte) :
  Z.of_N (fold_left (fun a b => 256 * a + Byte.to_N b)%N (rev bs) 0%N)
  = le_int bs.
Proof.
  induction bs as [|b bs IH]; [reflexivity|].
  cbn [rev]. rewrite fold_left_app. cbn [fold_left le_int fold_right].
  fold (le_int bs). rewrite <- IH. unfold byteZ. lia.
Qed.

Lemma bytesToHex_nonempty (bs : list byte) :
  bs <> [] -> bytesToHex bs <> "".
Proof.
  destruct bs as [|b bs]; [congruence|].
  rewrite bytesToHex_cons. discriminate.
Qed.

(** [BigInt("0x" + bytesToHex(reversed))] is the little-endian value. *)
Lemma BigInt_0x_reversed (bs : list byte) :
  bs <> [] -> BigInt_0x (bytesToHex (rev bs)) = Ok (le_int bs).
Proof.
  intro H. unfold BigInt_0x.
  assert (N : bytesToHex (rev bs) <> "").
  { apply bytesToHex_nonempty. intro E. apply H.
    rewrite <- (rev_involutive bs), E. reflexivity. }
  destruct (bytesToHex (rev bs)) eqn:E; [congruence|].
  rewrite <- E, hexNumber_bytesToHex, be_fold_le_int. reflexivity.
Qed.

Lemma byteZ_range (b : byte) : 0 <= byteZ b < 256.
Proof. unfold byteZ. pose proof (Byte.to_N_bounded b). lia. Qed.

Lemma le_int_range (bs : list byte) :
  0 <= le_int bs < 256 ^ Z.of_nat (List.length bs).
Proof.
  induction bs as [|b bs IH]; [cbn; lia|].
  cbn [le_int fold_right List.length]. fold (le_int bs).
  rewrite Nat2Z.inj_succ, Z.pow_succ_r by lia.
  pose proof (byteZ_range b). lia.
Qed.

(** [toScalar] on a buffer that is neither empty nor 64 bytes long. *)
Lemma toScalar_plain (bytes : list byte) :
  bytes <> [] -> List.length bytes <> 64%nat ->
  toScalar bytes = Ok (le_int bytes mod CURVE_n).
Proof.
  intros Hne H64. unfold toScalar.
  destruct (Nat.eqb_spec (List.length bytes) 64) as [e|_]; [contradiction|].
  rewrite BigInt_0x_reversed by exact Hne. cbn [bind].
  rewrite etc_mod_nonneg;
    [reflexivity | apply le_int_range | apply CURVE_n_pos].
Qed.

(** [toScalar] on a 64-byte buffer. *)
Lemma toScalar_wide (bytes : list byte) :
  List.length bytes = 64%nat ->
  toScalar bytes = Ok (le_int (firstn 32 bytes) mod CURVE_n).
Proof.
  intro H64. unfold toScalar. rewrite H64. cbn [Nat.eqb].
  rewrite BigInt_0x_reversed.
  - cbn [bind]. rewrite etc_mod_nonneg;
      [reflexivity | apply le_int_range | apply CURVE_n_pos].
  - intro E. apply (f_equal (@List.length byte)) in E.
    rewrite length_firstn, H64 in E. discriminate.
Qed.

Lemma toScalar_range (bytes : list byte) (z : Z) :
  toScalar bytes = Ok z -> 0 <= z < CURVE_n.
Proof.
  unfold toScalar.
  destruct (BigInt_0x _) as [n|] eqn:E; cbn [bind]; [|discriminate].
  intro H. injection H as <-.
  assert (0 <= n).
  { unfold BigInt_0x in E. destruct (bytesToHex _); [discriminate|].
    destruct (hexNumber _ _); [|discriminate]. injection E as <-. lia. }
  rewrite etc_mod_nonneg by (trivial; apply CURVE_n_pos).
  apply Z.mod_pos_bound, CURVE_n_pos.
Qed.

(** C7. A 32-byte buffer is read as a little-endian integer and reduced
    modulo the group order; of a 64-byte buffer the first 32 bytes are read
    the same way.  The result lies in [0, L) and neither length is
    rejected. *)
Theorem toScalar_reduces (b32 b64 : list byte) :
  List.length b32 = 32%nat -> List.length b64 = 64%nat ->
  toScalar b32 = Ok (le_int b32 mod CURVE_n)
  /\ toScalar b64 = Ok (le_int (firstn 32 b64) mod CURVE_n)
  /\ 0 <= le_int b32 mod CURVE_n < CURVE_n
  /\ 0 <= le_int (firstn 32 b64) mod CURVE_n < CURVE_n.
Proof.
  intros H32 H64. repeat split.
  - apply toScalar_plain.
    + intro E. rewrite E in H32. discriminate.
    + rewrite H32. discriminate.
  - apply toScalar_wide, H64.
  - apply Z.mod_pos_bound, CURVE_n_pos.
  - apply Z.mod_pos_bound, CURVE_n_pos.
  - apply Z.mod_pos_bound, CURVE_n_pos.
  - apply Z.mod_pos_bound, CURVE_n_pos.
Qed.

Lemma toScalar_reduces_witness :
  toScalar (le_bytes 32 (CURVE_n + 5)) = Ok 5
  /\ toScalar (le_bytes 32 7 ++ le_bytes 32 9) = Ok 7.
Proof.
  pose proof (toScalar_reduces (le_bytes 32 (CURVE_n + 5))
                (le_bytes 32 7 ++ le_bytes 32 9) eq_refl eq_refl)
    as (H1 & H2 & _).
  split; [exact H1 | exact H2].
Defined.

End ScalarFacts.

(** ** The 32-byte little-endian encoding written by [toString(16)],
       [padStart], [hexToBytes] and [reverse] *)

Module EncodeFacts.

Import StringFacts HexFacts ScalarFacts.

Lemma length_le_bytes (n : nat) (z : Z) : List.length (le_bytes n z) = n.
Proof.
  revert z; induction n as [|n IH]; intro z; cbn [le_bytes List.length];
    [reflexivity | now rewrite IH].
Qed.

Lemma byteZ_byte_of_Z (z : Z) : byteZ (byte_of_Z z) = z mod 256.
Proof.
  unfold byteZ, byte_of_Z.
  pose proof (Z.mod_pos_bound z 256 eq_refl) as B.
  destruct (Byte.of_N (Z.to_N (z mod 256))) as [b|] eqn:E.
  - apply Byte.to_of_N in E. rewrite E. lia.
  - apply Byte.of_N_None_iff in E. lia.
Qed.

Lemma le_int_le_bytes (n : nat) (z : Z) :
  le_int (le_bytes n z) = z mod 256 ^ Z.of_nat n.
Proof.
  revert z; induction n as [|n IH]; intro z.
  - cbn. now rewrite Z.mod_1_r.
  - cbn [le_bytes le_int fold_right]. fold (le_int (le_bytes n (z / 256))).
    rewrite IH, byteZ_byte_of_Z, Nat2Z.inj_succ, Z.pow_succ_r by lia.
    rewrite Z.rem_mul_r by lia. reflexivity.
Qed.

Lemma toScalar_le_bytes (z : Z) :
  0 <= z < CURVE_n -> toScalar (le_bytes 32 z) = Ok z.
Proof.
  intro H. rewrite toScalar_plain.
  - rewrite le_int_le_bytes.
    change (256 ^ Z.of_nat 32) with (16 ^ 64).
    pose proof CURVE_n_lt.
    rewrite (Z.mod_small z (16 ^ 64)) by lia.
    now rewrite Z.mod_small.
  - discriminate.
  - rewrite length_le_bytes. discriminate.
Qed.

Lemma fixedHex_zero (k : nat) : fixedHex k 0 = repeat_char "0" k.
Proof.
  induction k as [|k IH]; [reflexivity|].
  cbn [fixedHex]. change (0 / 16)%N with 0%N. rewrite IH.
  clear IH. induction k as [|k IH]; [reflexivity|].
  cbn [repeat_char append]. now rewrite IH.
Qed.

Lemma repeat_char_snoc (c : ascii) (k : nat) :
  (repeat_char c k ++ String c "")%string = repeat_char c (S k).
Proof.
  induction k as [|k IH]; [reflexivity|].
  cbn [repeat_char append]. now rewrite IH.
Qed.

(** Left-padding the digits of [n] with zeros gives the fixed-width form. *)
Lemma hexDigits_padded (fuel : nat) :
  forall (n : N) (k : nat),
    (n < 16 ^ N.of_nat fuel)%N -> (n < 16 ^ N.of_nat k)%N ->
    (1 <= fuel)%nat -> (1 <= k)%nat ->
    (repeat_char "0" (k - String.length (hexDigits fuel n))
       ++ hexDigits fuel n)%string = fixedHex k n.
Proof.
  induction fuel as [|f IH]; intros n k Hf Hk F K; [lia|].
  destruct k as [|k]; [lia|].
  cbn [hexDigits fixedHex].
  destruct (N.ltb_spec n 16) as [small|big].
  - cbn [String.length]. replace (S k - 1)%nat with k by lia.
    rewrite N.div_small, N.mod_small, fixedHex_zero by exact small.
    reflexivity.
  - assert (Hf' : (n / 16 < 16 ^ N.of_nat f)%N).
    { apply N.Div0.div_lt_upper_bound.
      rewrite Nat2N.inj_succ, N.pow_succ_r' in Hf. exact Hf. }
    assert (Hk' : (n / 16 < 16 ^ N.of_nat k)%N).
    { apply N.Div0.div_lt_upper_bound.
      rewrite Nat2N.inj_succ, N.pow_succ_r' in Hk. exact Hk. }
    assert (F' : (1 <= f)%nat).
    { destruct f; [|lia]. cbn in Hf'.
      assert (n / 16 = 0)%N by lia.
      apply N.div_small_iff in H; [lia | discriminate]. }
    assert (K' : (1 <= k)%nat).
    { destruct k; [|lia]. cbn in Hk'.
      assert (n / 16 = 0)%N by lia.
      apply N.div_small_iff in H; [lia | discriminate]. }
    rewrite length_append. cbn [String.length].
    replace (S k - (String.length (hexDigits f (n / 16)) + 1))%nat
      with (k - String.length (hexDigits f (n / 16)))%nat by lia.
    rewrite <- append_assoc, (IH (n / 16)%N k Hf' Hk' F' K').
    reflexivity.
Qed.

Lemma pos_lt_pow2 (p : positive) :
  (N.pos p < 2 ^ N.of_nat (Pos.size_nat p))%N.
Proof.
  induction p as [p IH|p IH|]; cbn [Pos.size_nat];
    rewrite Nat2N.inj_succ, N.pow_succ_r'; [lia | lia | reflexivity].
Qed.

Lemma size_nat_bound (n : N) : (n < 16 ^ N.of_nat (S (N.size_nat n)))%N.
Proof.
  destruct n as [|p]; [reflexivity|].
  cbn [N.size_nat].
  apply N.lt_le_trans with (2 ^ N.of_nat (Pos.size_nat p))%N;
    [apply pos_lt_pow2|].
  apply N.le_trans with (16 ^ N.of_nat (Pos.size_nat p))%N.
  - apply N.pow_le_mono_l. lia.
  - apply N.pow_le_mono_r; lia.
Qed.

(** [S.toString(16).padStart(64, "0")] for [0 <= S < 16^64]. *)
Lemma padStart_toString16 (z : Z) :
  0 <= z < 16 ^ 64 ->
  padStart (BigInt_toString16 z) 64 "0" = fixedHex 64 (Z.to_N z).
Proof.
  intro H. unfold padStart, BigInt_toString16.
  destruct (Z.ltb_spec z 0) as [neg|_]; [lia|].
  unfold Number_toString16.
  apply hexDigits_padded.
  - apply size_nat_bound.
  - change (16 ^ N.of_nat 64)%N with (Z.to_N (16 ^ 64)). lia.
  - lia.
  - lia.
Qed.

Lemma byte_of_Z_N (v : N) :
  Byte.to_N (byte_of_Z (Z.of_N v)) = (v mod 256)%N.
Proof.
  pose proof (byteZ_byte_of_Z (Z.of_N v)) as H. unfold byteZ in H.
  apply N2Z.inj. rewrite H, N2Z.inj_mod. reflexivity.
Qed.

Lemma high_digit (v : N) : (v mod 256 / 16 = v / 16 mod 16)%N.
Proof.
  change 256%N with (16 * 16)%N. rewrite N.Div0.mod_mul_r.
  rewrite (N.mul_comm 16 (v / 16 mod 16)), N.div_add by discriminate.
  rewrite N.div_small by (apply N.mod_lt; discriminate).
  reflexivity.
Qed.

Lemma low_digit (v : N) : (v mod 256 mod 16 = v mod 16)%N.
Proof.
  change 256%N with (16 * 16)%N. rewrite N.Div0.mod_mul_r.
  rewrite (N.mul_comm 16 (v / 16 mod 16)), N.Div0.mod_add.
  apply N.Div0.mod_mod.
Qed.

(** The fixed-width string is [bytesToHex] of the big-endian bytes. *)
Lemma fixedHex_bytes (k : nat) (v : N) :
  fixedHex (2 * k) v = bytesToHex (rev (le_bytes k (Z.of_N v))).
Proof.
  revert v; induction k as [|k IH]; intro v; [reflexivity|].
  replace (2 * S k)%nat with (S (S (2 * k))) by lia.
  cbn [fixedHex le_bytes rev].
  rewrite bytesToHex_app, bytesToHex_cons, append_assoc.
  cbn [append bytesToHex].
  change (bytesToHex []) with "".
  rewrite N.Div0.div_div. change (16 * 16)%N with 256%N.
  replace (Z.of_N v / 256) with (Z.of_N (v / 256))
    by (rewrite N2Z.inj_div; reflexivity).
  rewrite <- IH, byte_of_Z_N, high_digit, low_digit. reflexivity.
Qed.

(** The three steps that write a scalar as 32 little-endian bytes. *)
Lemma encode_scalar (z : Z) :
  0 <= z < 16 ^ 64 ->
  rev (hexToBytes (padStart (BigInt_toString16 z) 64 "0")) = le_bytes 32 z.
Proof.
  intro H. rewrite padStart_toString16 by exact H.
  rewrite (fixedHex_bytes 32), hexToBytes_bytesToHex, rev_involutive.
  now rewrite Z2N.id.
Qed.

End EncodeFacts.

(** ** Scalar multiplication *)

Module CurveFacts.

Section WithLaws.
Context {lib : Lib} (laws : Laws lib).

Lemma smul_0 (P : Point) : smul 0 P = ZERO.
Proof. reflexivity. Qed.

Lemma smul_succ (n : Z) (P : Point) :
  0 <= n -> smul (Z.succ n) P = add P (smul n P).
Proof.
  intro H. destruct n as [|p|p]; [| |lia].
  - cbn. symmetry. apply (add_ZERO_r lib laws).
  - rewrite <- Pos2Z.inj_succ. cbn [smul].
    apply Pos.iter_op_succ. apply (add_assoc lib laws).
Qed.

Lemma smul_add (a b : Z) (P : Point) :
  0 <= a -> 0 <= b -> smul (a + b) P = add (smul a P) (smul b P).
Proof.
  intros Ha Hb. revert a Ha. apply natlike_ind.
  - rewrite Z.add_0_l, smul_0. symmetry. apply (add_ZERO_l lib laws).
  - intros a Ha IH. rewrite Z.add_succ_l, !smul_succ, IH by lia.
    apply (add_assoc lib laws).
Qed.

Lemma smul_ZERO (n : Z) : 0 <= n -> smul n (@ZERO lib) = ZERO.
Proof.
  revert n. apply natlike_ind; [reflexivity|].
  intros n Hn IH. rewrite smul_succ, IH by lia. apply (add_ZERO_l lib laws).
Qed.

Lemma smul_mul (a b : Z) (P : Point) :
  0 <= a -> 0 <= b -> smul (a * b) P = smul a (smul b P).
Proof.
  intros Ha Hb. revert a Ha. apply natlike_ind; [reflexivity|].
  intros a Ha IH.
  rewrite Z.mul_succ_l, Z.add_comm, smul_add, IH, smul_succ by nia.
  reflexivity.
Qed.

(** Scalars act on the base point modulo its order. *)
Lemma smul_mod_order (n : Z) :
  0 <= n -> smul (n mod CURVE_n) (@BASE lib) = smul n BASE.
Proof.
  intro Hn. pose proof ScalarFacts.CURVE_n_pos as Lpos.
  pose proof (Z.mod_pos_bound n CURVE_n Lpos) as B.
  assert (Q : 0 <= n / CURVE_n) by (apply Z.div_pos; lia).
  rewrite (Z.div_mod n CURVE_n) at 2 by lia.
  rewrite smul_add by nia.
  rewrite (Z.mul_comm CURVE_n), smul_mul by lia.
  rewrite (BASE_order lib laws), smul_ZERO by lia.
  symmetry. apply (add_ZERO_l lib laws).
Qed.

Lemma multiply_Ok (P : Point) (n : Z) :
  0 < n < CURVE_n -> multiply P n = Ok (smul n P).
Proof.
  intro H. unfold multiply.
  destruct (Z.ltb_spec 0 n); [|lia].
  destruct (Z.ltb_spec n CURVE_n); [reflexivity | lia].
Qed.

Lemma multiply_inv (P Q : Point) (n : Z) :
  multiply P n = Ok Q -> 0 < n < CURVE_n /\ Q = smul n P.
Proof.
  unfold multiply.
  destruct (Z.ltb_spec 0 n); cbn [andb]; [|discriminate].
  destruct (Z.ltb_spec n CURVE_n); [|discriminate].
  intro E. injection E as <-. split; [lia | reflexivity].
Qed.

Lemma multiply_zero (P : Point) : multiply P 0 = Throw NobleError.
Proof. reflexivity. Qed.

(** What a successful [derivePublicKey] says about its argument. *)
Lemma derivePublicKey_inv (sk pk : list byte) :
  derivePublicKey sk = Ok pk ->
  exists m, toScalar sk = Ok m /\ 0 < m < CURVE_n
            /\ pk = toRawBytes (smul m BASE).
Proof.
  unfold derivePublicKey.
  destruct (toScalar sk) as [m|] eqn:E; cbn [bind]; [|discriminate].
  destruct (multiply BASE m) as [Q|] eqn:M; cbn [bind]; [|discriminate].
  intro H. injection H as <-.
  apply multiply_inv in M as [R ->]. now exists m.
Qed.

Lemma derivePublicKey_Ok (sk : list byte) (m : Z) :
  toScalar sk = Ok m -> m <> 0 ->
  derivePublicKey sk = Ok (toRawBytes (smul m BASE)).
Proof.
  intros E Hm. unfold derivePublicKey. rewrite E. cbn [bind].
  pose proof (ScalarFacts.toScalar_range _ _ E).
  rewrite multiply_Ok by lia. reflexivity.
Qed.

(** The scalar that both derivation paths add to the meta key. *)
Lemma domain_scalar (sharedSecret : list byte) :
  exists d,
    toScalar (sha256 (sharedSecret ++ encode Config.STEALTH_DOMAIN)) = Ok d
    /\ 0 <= d < CURVE_n.
Proof.
  eexists. split.
  - apply ScalarFacts.toScalar_plain.
    + intro E. apply (f_equal (@List.length byte)) in E.
      rewrite (sha256_length lib laws) in E. discriminate.
    + rewrite (sha256_length lib laws). discriminate.
  - apply Z.mod_pos_bound, ScalarFacts.CURVE_n_pos.
Qed.

(** The recipient path always returns, and returns the 32-byte encoding of
    [(metaScalar + domainScalar) mod L]. *)
Lemma recoverStealthSecretKey_Ok (metaSk sharedSecret : list byte) (m d : Z) :
  toScalar metaSk = Ok m ->
  toScalar (sha256 (sharedSecret ++ encode Config.STEALTH_DOMAIN)) = Ok d ->
  recoverStealthSecretKey metaSk sharedSecret
  = Ok (le_bytes 32 ((m + d) mod CURVE_n)).
Proof.
  intros Em Ed. unfold recoverStealthSecretKey. cbv zeta.
  rewrite Ed, Em. cbn [bind].
  pose proof (ScalarFacts.toScalar_range _ _ Em).
  pose proof (ScalarFacts.toScalar_range _ _ Ed).
  pose proof ScalarFacts.CURVE_n_pos as Lpos.
  pose proof ScalarFacts.CURVE_n_lt.
  rewrite ScalarFacts.etc_mod_nonneg by lia.
  pose proof (Z.mod_pos_bound (m + d) CURVE_n Lpos).
  rewrite EncodeFacts.encode_scalar by lia. reflexivity.
Qed.

(** The sender path returns as soon as the domain scalar is not zero. *)
Lemma deriveStealthPubkey_Ok (sharedSecret : list byte) (M : Point) (d : Z) :
  toScalar (sha256 (sharedSecret ++ encode Config.STEALTH_DOMAIN)) = Ok d ->
  d <> 0 ->
  deriveStealthPubkey (toRawBytes M) sharedSecret
  = Ok (toRawBytes (add M (smul d BASE))).
Proof.
  intros Ed Hd. unfold deriveStealthPubkey. cbv zeta.
  rewrite Ed. cbn [bind]. rewrite (fromHex_toRawBytes lib laws). cbn [bind].
  pose proof (ScalarFacts.toScalar_range _ _ Ed).
  rewrite multiply_Ok by lia. reflexivity.
Qed.

Lemma deriveStealthPubkey_inv (sharedSecret : list byte) (M : Point)
  (stealthPk : list byte) :
  deriveStealthPubkey (toRawBytes M) sharedSecret = Ok stealthPk ->
  exists d,
    toScalar (sha256 (sharedSecret ++ encode Config.STEALTH_DOMAIN)) = Ok d
    /\ 0 < d < CURVE_n
    /\ stealthPk = toRawBytes (add M (smul d BASE)).
Proof.
  unfold deriveStealthPubkey. cbv zeta.
  destruct (toScalar _) as [d|] eqn:Ed; cbn [bind]; [|discriminate].
  rewrite (fromHex_toRawBytes lib laws). cbn [bind].
  destruct (multiply BASE d) as [T|] eqn:Mu; cbn [bind]; [|discriminate].
  intro H. injection H as <-.
  apply multiply_inv in Mu as [R ->]. now exists d.
Qed.

(** The digest that each side computes, in terms of the two scalars. *)
Lemma computeSharedSecret_value (ephemeralSk : list byte) (e m : Z) :
  toScalar ephemeralSk = Ok e -> 0 < e < CURVE_n -> 0 <= m ->
  computeSharedSecret ephemeralSk (toRawBytes (smul m BASE))
  = Ok (sha256 (toRawBytes (smul (e * m) BASE))).
Proof.
  intros Ee Re Hm. unfold computeSharedSecret.
  rewrite (fromHex_toRawBytes lib laws), Ee. cbn [bind].
  rewrite multiply_Ok by lia. cbn [bind].
  rewrite <- smul_mul by lia. reflexivity.
Qed.

Lemma computeSharedSecretAsRecipient_value (metaSk : list byte) (e m : Z) :
  toScalar metaSk = Ok m -> 0 < m < CURVE_n -> 0 <= e ->
  computeSharedSecretAsRecipient metaSk (toRawBytes (smul e BASE))
  = Ok (sha256 (toRawBytes (smul (e * m) BASE))).
Proof.
  intros Em Rm He. unfold computeSharedSecretAsRecipient.
  rewrite (fromHex_toRawBytes lib laws), Em. cbn [bind].
  rewrite multiply_Ok by lia. cbn [bind].
  rewrite <- smul_mul, (Z.mul_comm m e) by lia. reflexivity.
Qed.

(** The two derivation paths meet: [metaPk + d * G = ((m + d) mod L) * G]. *)
Lemma stealth_point (m d : Z) :
  0 <= m -> 0 <= d ->
  add (smul m BASE) (smul d BASE) = smul ((m + d) mod CURVE_n) (@BASE lib).
Proof.
  intros Hm Hd. rewrite smul_mod_order, smul_add by lia. reflexivity.
Qed.

End WithLaws.

End CurveFacts.

(** ** The stealth protocol *)

Module ProtocolProofs.

Import CurveFacts.

Section WithLaws.
Context {lib : Lib} (laws : Laws lib).

(** C3. When [metaPk] and [ephemeralPk] are the public keys derived from
    [metaSk] and [ephemeralSk], the sender's [computeSharedSecret] and the
    recipient's [computeSharedSecretAsRecipient] return the same 32-byte
    digest. *)
Theorem shared_secret_agrees
  (metaSk metaPk ephemeralSk ephemeralPk : list byte) :
  derivePublicKey metaSk = Ok metaPk ->
  derivePublicKey ephemeralSk = Ok ephemeralPk ->
  exists secret,
    computeSharedSecret ephemeralSk metaPk = Ok secret
    /\ computeSharedSecretAsRecipient metaSk ephemeralPk = Ok secret
    /\ List.length secret = 32%nat.
Proof.
  intros Hm He.
  apply derivePublicKey_inv in Hm as (m & Em & Rm & ->).
  apply derivePublicKey_inv in He as (e & Ee & Re & ->).
  exists (sha256 (toRawBytes (smul (e * m) BASE))).
  split; [apply (computeSharedSecret_value laws); trivial; lia|].
  split; [apply (computeSharedSecretAsRecipient_value laws); trivial; lia|].
  apply (sha256_length lib laws).
Qed.

(** C1. For a meta key pair and any shared secret, the stealth public key
    that the sender derives is the base-point multiple of the scalar held in
    the 32 bytes that the recipient recovers: [stealthSk * G = stealthPk]. *)
Theorem stealth_key_roundtrip
  (metaSk metaPk sharedSecret stealthPk : list byte) :
  derivePublicKey metaSk = Ok metaPk ->
  deriveStealthPubkey metaPk sharedSecret = Ok stealthPk ->
  exists stealthSk s,
    recoverStealthSecretKey metaSk sharedSecret = Ok stealthSk
    /\ List.length stealthSk = 32%nat
    /\ toScalar stealthSk = Ok s
    /\ stealthPk = toRawBytes (smul s BASE)
    /\ (s <> 0 -> derivePublicKey stealthSk = Ok stealthPk).
Proof.
  intros Hm Hs.
  apply derivePublicKey_inv in Hm as (m & Em & Rm & ->).
  apply (deriveStealthPubkey_inv laws) in Hs as (d & Ed & Rd & ->).
  pose proof ScalarFacts.CURVE_n_pos as Lpos.
  pose proof (Z.mod_pos_bound (m + d) CURVE_n Lpos) as B.
  assert (Es : toScalar (le_bytes 32 ((m + d) mod CURVE_n))
               = Ok ((m + d) mod CURVE_n))
    by (apply EncodeFacts.toScalar_le_bytes; exact B).
  assert (P : add (smul m BASE) (smul d BASE)
              = smul ((m + d) mod CURVE_n) (@BASE lib))
    by (apply (stealth_point laws); lia).
  exists (le_bytes 32 ((m + d) mod CURVE_n)), ((m + d) mod CURVE_n).
  split; [apply recoverStealthSecretKey_Ok; assumption|].
  split; [apply EncodeFacts.length_le_bytes|].
  split; [exact Es|]. split.
  - now rewrite P.
  - intro Hs. rewrite P. apply derivePublicKey_Ok; assumption.
Qed.

End WithLaws.

End ProtocolProofs.

(** ** The small model satisfies the laws *)

Module ZLFacts.

Import Zmod.ZmodDef Zmod.ZmodBase.

Lemma decode_encode (P : Zmod.Zmod CURVE_n) :
  ZL.decode (bytesToHex (le_bytes 32 (Zmod.to_Z P))) = Ok P.
Proof.
  unfold ZL.decode. cbv zeta.
  rewrite HexFacts.hexToBytes_bytesToHex, EncodeFacts.length_le_bytes.
  cbn [Nat.eqb andb].
  rewrite EncodeFacts.le_int_le_bytes.
  pose proof (Zmod.unsigned_pos_bound P ScalarFacts.CURVE_n_pos) as B.
  pose proof ScalarFacts.CURVE_n_lt as U.
  change (256 ^ Z.of_nat 32) with (16 ^ 64).
  rewrite Z.mod_small by lia.
  destruct (Z.ltb_spec (Zmod.to_Z P) CURVE_n); [|lia].
  now rewrite Zmod.of_Z_unsigned.
Qed.

Lemma laws : Laws ZL.lib.
Proof.
  constructor.
  - intros P Q R. apply (@Zmod.add_assoc CURVE_n).
  - intro P. apply (@Zmod.add_0_l CURVE_n).
  - intro P. cbn. rewrite Zmod.add_comm. apply (@Zmod.add_0_l CURVE_n).
  - apply Zmod.unsigned_inj. vm_compute. reflexivity.
  - intro P. apply EncodeFacts.length_le_bytes.
  - intro P. apply decode_encode.
  - intro m. apply EncodeFacts.length_le_bytes.
  - intro m. apply EncodeFacts.length_le_bytes.
Qed.

End ZLFacts.

(** ** Examples of the protocol in the small model *)

Module ProtocolExamples.

Import ProtocolProofs.

Lemma shared_secret_agrees_witness :
  derivePublicKey (lib := ZL.lib) ZL.metaSk = Ok ZL.metaPk
  /\ derivePublicKey (lib := ZL.lib) ZL.ephSk = Ok ZL.ephPk
  /\ exists secret,
       computeSharedSecret (lib := ZL.lib) ZL.ephSk ZL.metaPk = Ok secret
       /\ computeSharedSecretAsRecipient (lib := ZL.lib) ZL.metaSk ZL.ephPk
          = Ok secret
       /\ List.length secret = 32%nat.
Proof.
  split; [vm_compute; reflexivity|].
  split; [vm_compute; reflexivity|].
  apply (shared_secret_agrees ZLFacts.laws ZL.metaSk ZL.metaPk
           ZL.ephSk ZL.ephPk);
    vm_compute; reflexivity.
Defined.

Lemma stealth_key_roundtrip_witness :
  derivePublicKey (lib := ZL.lib) ZL.metaSk = Ok ZL.metaPk
  /\ deriveStealthPubkey (lib := ZL.lib) ZL.metaPk ZL.sharedSecret
     = Ok ZL.stealthPk
  /\ exists stealthSk s,
       recoverStealthSecretKey (lib := ZL.lib) ZL.metaSk ZL.sharedSecret
       = Ok stealthSk
       /\ List.length stealthSk = 32%nat
       /\ toScalar stealthSk = Ok s
       /\ ZL.stealthPk = toRawBytes (smul s (@BASE ZL.lib))
       /\ (s <> 0 -> derivePublicKey (lib := ZL.lib) stealthSk = Ok ZL.stealthPk).
Proof.
  split; [vm_compute; reflexivity|].
  split; [vm_compute; reflexivity|].
  apply (stealth_key_roundtrip ZLFacts.laws ZL.metaSk ZL.metaPk
           ZL.sharedSecret ZL.stealthPk);
    vm_compute; reflexivity.
Defined.

End ProtocolExamples.

(** ** The raw-scalar signer *)

Module SignerProofs.

Import CurveFacts.

(** Writing [source] right after [pre] into a buffer that is zero from there
    on. *)
Lemma u8_set_fill (pre source : list byte) (n : nat) :
  u8_set (pre ++ repeat x00 (List.length source + n)) source (List.length pre)
  = Ok (pre ++ source ++ repeat x00 n).
Proof.
  unfold u8_set.
  rewrite length_app, repeat_length.
  destruct (Nat.leb_spec (List.length pre + List.length source)
              (List.length pre + (List.length source + n))) as [_|F]; [|lia].
  rewrite firstn_app, Nat.sub_diag, firstn_all, firstn_O, app_nil_r.
  rewrite skipn_app, skipn_all2 by lia.
  replace (List.length pre + List.length source - List.length pre)%nat
    with (List.length source) by lia.
  rewrite repeat_app, skipn_app, repeat_length, Nat.sub_diag, skipn_O.
  rewrite skipn_all2 by (rewrite repeat_length; lia).
  reflexivity.
Qed.

(** The three [content.set] calls build [R || A || message]. *)
Lemma content_concat (R A message : list byte) :
  (content <- u8_set (u8_new (List.length R + List.length A
                              + List.length message)) R 0 ;;
   content <- u8_set content A (List.length R) ;;
   u8_set content message (List.length R + List.length A))
  = Ok (R ++ A ++ message).
Proof.
  unfold u8_new.
  rewrite <- Nat.add_assoc.
  pose proof (u8_set_fill [] R (List.length A + List.length message)) as H0.
  cbn [app List.length] in H0. rewrite H0. cbn [bind].
  rewrite (u8_set_fill R A). cbn [bind].
  pose proof (u8_set_fill (R ++ A) message 0) as H.
  rewrite length_app, Nat.add_0_r, <- app_assoc in H.
  cbn [repeat] in H. rewrite app_nil_r, <- app_assoc in H. exact H.
Qed.

Section WithLaws.
Context {lib : Lib} (laws : Laws lib).

(** When the scalar reduces to zero the package refuses to compute the
    public point, and no signature is returned. *)
Lemma signWithScalar_throws_on_zero (message scalarBytes rBytes : list byte) :
  toScalar scalarBytes = Ok 0 ->
  signWithScalar message scalarBytes rBytes = Throw NobleError.
Proof.
  intro E. unfold signWithScalar. rewrite E. reflexivity.
Qed.

(** C2 (amended). For a 32-byte scalar input and a 32-byte nonce that both
    reduce to a non-zero scalar, and every message, [signWithScalar] returns
    64 bytes [R || S] with [S = (r + k * scalar) mod L] in little-endian
    order, [k] the reduced hash of [R || A || message] and [A = scalar * G];
    the signature satisfies [S * G = R + k * A]. *)
Theorem signWithScalar_valid (message scalarBytes rBytes : list byte) :
  List.length scalarBytes = 32%nat ->
  List.length rBytes = 32%nat ->
  le_int scalarBytes mod CURVE_n <> 0 ->
  le_int rBytes mod CURVE_n <> 0 ->
  let s := le_int scalarBytes mod CURVE_n in
  let r := le_int rBytes mod CURVE_n in
  let A := smul s BASE in
  let R := smul r BASE in
  let k := le_int (sha512 (toRawBytes R ++ toRawBytes A ++ message))
           mod CURVE_n in
  let S := (r + k * s) mod CURVE_n in
  exists signature,
    signWithScalar message scalarBytes rBytes = Ok signature
    /\ List.length signature = 64%nat
    /\ signature = toRawBytes R ++ le_bytes 32 S
    /\ fromHex (bytesToHex (firstn 32 signature)) = Ok R
    /\ le_int (skipn 32 signature) = S
    /\ smul S BASE = add R (smul k A).
Proof.
  intros Ls Lr Hs Hr s r A R k S.
  pose proof ScalarFacts.CURVE_n_pos as Lpos.
  pose proof ScalarFacts.CURVE_n_lt as Lup.
  pose proof (Z.mod_pos_bound (le_int scalarBytes) CURVE_n Lpos) as Bs.
  pose proof (Z.mod_pos_bound (le_int rBytes) CURVE_n Lpos) as Br.
  fold s in Bs, Hs. fold r in Br, Hr.
  assert (Bk : 0 <= k < CURVE_n) by (apply Z.mod_pos_bound, Lpos).
  assert (BS : 0 <= S < CURVE_n) by (apply Z.mod_pos_bound, Lpos).
  assert (Es : toScalar scalarBytes = Ok s).
  { apply ScalarFacts.toScalar_plain.
    - intro E. rewrite E in Ls. discriminate.
    - rewrite Ls. discriminate. }
  assert (Er : toScalar rBytes = Ok r).
  { apply ScalarFacts.toScalar_plain.
    - intro E. rewrite E in Lr. discriminate.
    - rewrite Lr. discriminate. }
  assert (LR : List.length (toRawBytes R) = 32%nat)
    by apply (toRawBytes_length lib laws).
  assert (Ek : BigInt_0x (bytesToHex
                 (rev (sha512 (toRawBytes R ++ toRawBytes A ++ message))))
               = Ok (le_int (sha512 (toRawBytes R ++ toRawBytes A ++ message)))).
  { apply ScalarFacts.BigInt_0x_reversed. intro E.
    apply (f_equal (@List.length byte)) in E.
    rewrite (sha512_length lib laws) in E. discriminate. }
  exists (toRawBytes R ++ le_bytes 32 S).
  split.
  { unfold signWithScalar. rewrite Es. cbn [bind].
    rewrite multiply_Ok by lia. cbn [bind].
    rewrite Er. cbn [bind].
    rewrite multiply_Ok by lia. cbn [bind]. cbv zeta.
    fold A R.
    pose proof (content_concat (toRawBytes R) (toRawBytes A) message) as C.
    destruct (u8_set (u8_new _) (toRawBytes R) 0) as [c1|] eqn:C1;
      cbn [bind] in C |- *; [|discriminate].
    destruct (u8_set c1 (toRawBytes A) _) as [c2|] eqn:C2;
      cbn [bind] in C |- *; [|discriminate].
    rewrite C. cbn [bind].
    rewrite Ek. cbn [bind].
    rewrite (ScalarFacts.etc_mod_nonneg (le_int _)) 
      by (trivial; apply ScalarFacts.le_int_range).
    fold k.
    rewrite ScalarFacts.etc_mod_nonneg by nia.
    fold S.
    rewrite EncodeFacts.encode_scalar by lia.
    pose proof (u8_set_fill [] (toRawBytes R) 32) as F0.
    rewrite LR in F0. cbn [app List.length] in F0.
    change (repeat x00 (32 + 32)) with (u8_new 64) in F0.
    rewrite F0. cbn [bind].
    pose proof (u8_set_fill (toRawBytes R) (le_bytes 32 S) 0) as F.
    rewrite EncodeFacts.length_le_bytes, LR in F.
    change (32 + 0)%nat with 32%nat in F.
    change (repeat x00 0) with (@nil byte) in F. rewrite app_nil_r in F.
    rewrite F. reflexivity. }
  split.
  { rewrite length_app, LR, EncodeFacts.length_le_bytes. reflexivity. }
  split; [reflexivity|].
  split.
  { rewrite firstn_app, LR, Nat.sub_diag, firstn_O, app_nil_r.
    rewrite firstn_all2 by (rewrite LR; lia).
    apply (fromHex_toRawBytes lib laws). }
  split.
  { rewrite skipn_app, LR, Nat.sub_diag, skipn_O.
    rewrite skipn_all2 by (rewrite LR; lia).
    cbn [app]. rewrite EncodeFacts.le_int_le_bytes.
    change (256 ^ Z.of_nat 32) with (16 ^ 64).
    apply Z.mod_small. lia. }
  { unfold S. rewrite (smul_mod_order laws) by nia.
    rewrite (smul_add laws) by nia.
    rewrite (smul_mul laws) by lia.
    reflexivity. }
Qed.

End WithLaws.

Lemma signWithScalar_valid_witness :
  exists signature,
    signWithScalar (lib := ZL.lib) ZL.message ZL.metaSk ZL.nonce = Ok signature
    /\ List.length signature = 64%nat.
Proof.
  destruct (signWithScalar_valid ZLFacts.laws ZL.message ZL.metaSk ZL.nonce)
    as (sg & H1 & H2 & _).
  - reflexivity.
  - reflexivity.
  - vm_compute. discriminate.
  - vm_compute. discriminate.
  - exists sg. split; [exact H1 | exact H2].
Defined.

(** C2, as first stated, fails on the all-zero scalar: the call throws. *)
Lemma signWithScalar_zero_scalar :
  List.length ZL.zeros32 = 32%nat
  /\ signWithScalar (lib := ZL.lib) ZL.message ZL.zeros32 ZL.nonce
     = Throw NobleError.
Proof. split; vm_compute; reflexivity. Qed.

End SignerProofs.

(** ** The scanner *)

Module IndexerProofs.

Import CurveFacts.

Lemma bytesToHex_inj (a b : list byte) : bytesToHex a = bytesToHex b -> a = b.
Proof.
  intro H. rewrite <- (HexFacts.hexToBytes_bytesToHex a), H.
  apply HexFacts.hexToBytes_bytesToHex.
Qed.

(** [findIndex] returns [-1] or the position of the first element that
    satisfies the test. *)
Lemma findIndex_spec {A} (f : A -> bool) (l : list A) (d : A) :
  findIndex f l = -1
  \/ exists i : nat,
       findIndex f l = Z.of_nat i
       /\ (i < List.length l)%nat
       /\ f (nth i l d) = true
       /\ forall j, (j < i)%nat -> f (nth j l d) = false.
Proof.
  induction l as [|a l IH]; [now left|].
  cbn [findIndex]. destruct (f a) eqn:Fa.
  - right. exists 0%nat. cbn. repeat split; [lia | exact Fa | intros; lia].
  - destruct IH as [E|(i & E & Hi & Hf & Hj)].
    + left. now rewrite E.
    + right. exists (S i). rewrite E.
      destruct (Z.eqb_spec (Z.of_nat i) (-1)) as [F|_]; [lia|].
      repeat split.
      * lia.
      * cbn [List.length]. lia.
      * exact Hf.
      * intros [|j] Hlt; [exact Fa | apply Hj; lia].
Qed.

Section WithLib.
Context {lib : Lib}.

(** What a returned match says about the transaction. *)
Lemma attemptDecryption_returned (tx : ParsedTransaction)
  (metaSk metaPk : list byte) (d : Detected) :
  attemptDecryption tx metaSk metaPk = Ok (Some d) ->
  exists (idx : nat) (secret : list byte),
    computeSharedSecretAsRecipient metaSk (d_ephemeralPk d) = Ok secret
    /\ deriveStealthPubkey metaPk secret = Ok (d_stealthAddress d)
    /\ (idx < List.length (accountKeys tx))%nat
    /\ nth idx (accountKeys tx) [] = d_stealthAddress d
    /\ (forall j, (j < idx)%nat ->
          nth j (accountKeys tx) [] <> d_stealthAddress d)
    /\ let change := balance postBalances tx idx - balance preBalances tx idx in
       d_amount d = (if change >? 0 then change else 0)
       /\ d_amount d = Z.max 0 change
       /\ 0 <= d_amount d.
Proof.
  unfold attemptDecryption. cbv zeta.
  destruct (Memo.parseStealthMemo _) as [ePk|]; [|discriminate].
  destruct (computeSharedSecretAsRecipient metaSk ePk) as [secret|] eqn:Es;
    cbn [bind]; [|discriminate].
  destruct (deriveStealthPubkey metaPk secret) as [stealth|] eqn:Ed;
    cbn [bind]; [|discriminate].
  destruct (findIndex_spec
              (fun a => String.eqb (bytesToHex a) (bytesToHex stealth))
              (accountKeys tx) [])
    as [E|(i & E & Hi & Hf & Hj)]; rewrite E.
  - discriminate.
  - destruct (Z.eqb_spec (Z.of_nat i) (-1)) as [F|_]; [lia|].
    intro H. injection H as <-. cbn [d_stealthAddress d_amount d_ephemeralPk].
    rewrite Nat2Z.id.
    apply String.eqb_eq, bytesToHex_inj in Hf.
    exists i, secret. subst stealth.
    split; [exact Es|]. split; [exact Ed|]. split; [exact Hi|].
    split; [reflexivity|]. split.
    { intros j Hlt C. specialize (Hj j Hlt).
      apply String.eqb_neq in Hj. apply Hj. f_equal. exact C. }
    unfold at_or_0, balance. rewrite Nat2Z.id.
    assert (N0 : forall k, nth k (@nil Z) 0 = 0) by (intros [|k]; reflexivity).
    destruct (meta tx) as [m|]; rewrite ?N0.
    + cbv zeta.
      destruct (Z.gtb_spec (nth i (postBalances m) 0 - nth i (preBalances m) 0) 0);
        repeat split; lia.
    + cbn. repeat split; lia.
Qed.

Lemma findIndex_present {A} (f : A -> bool) (l : list A) (d a : A) :
  In a l -> f a = true ->
  exists i : nat,
    findIndex f l = Z.of_nat i
    /\ (i < List.length l)%nat
    /\ f (nth i l d) = true
    /\ forall j, (j < i)%nat -> f (nth j l d) = false.
Proof.
  intros Hin Ha.
  destruct (findIndex_spec f l d) as [E|H]; [|exact H].
  exfalso. clear d. induction l as [|x l IH]; [contradiction|].
  cbn [findIndex] in E. destruct (f x) eqn:Fx; [discriminate E|].
  destruct Hin as [->|Hin]; [congruence|].
  apply IH; [exact Hin|].
  destruct (Z.eqb_spec (findIndex f l) (-1)) as [F|_]; [exact F|].
  destruct (findIndex_spec f l x) as [F|(i & F & _)]; [exact F|].
  rewrite F in E. lia.
Qed.

(** C4. When the memo of a transaction decodes to an ephemeral key and the
    stealth address derived from it is among the account keys, trial
    decryption returns a result for the first index [idx] that holds the
    address, and the amount of the result is the post-transaction balance of
    that account minus its pre-transaction balance when the difference is
    positive and 0 otherwise; it is never negative. *)
Theorem attemptDecryption_amount (tx : ParsedTransaction)
  (metaSk metaPk ePk secret stealth : list byte) :
  Memo.parseStealthMemo
    (match extractMemo tx with Some m => m | None => "" end) = Some ePk ->
  computeSharedSecretAsRecipient metaSk ePk = Ok secret ->
  deriveStealthPubkey metaPk secret = Ok stealth ->
  In stealth (accountKeys tx) ->
  exists (idx : nat) (d : Detected),
    attemptDecryption tx metaSk metaPk = Ok (Some d)
    /\ (idx < List.length (accountKeys tx))%nat
    /\ nth idx (accountKeys tx) [] = stealth
    /\ (forall j, (j < idx)%nat -> nth j (accountKeys tx) [] <> stealth)
    /\ d_stealthAddress d = stealth
    /\ d_ephemeralPk d = ePk
    /\ let change := balance postBalances tx idx - balance preBalances tx idx in
       d_amount d = (if change >? 0 then change else 0)
       /\ d_amount d = Z.max 0 change
       /\ 0 <= d_amount d.
Proof.
  intros Pm Cs Ds Hin.
  destruct (findIndex_present
              (fun a => String.eqb (bytesToHex a) (bytesToHex stealth))
              (accountKeys tx) [] stealth Hin (String.eqb_refl _))
    as (i & E & Hi & Hf & Hj).
  apply String.eqb_eq, bytesToHex_inj in Hf.
  unfold attemptDecryption. rewrite Pm. cbv zeta.
  rewrite Cs. cbn [bind]. rewrite Ds. cbn [bind]. rewrite E.
  destruct (Z.eqb_spec (Z.of_nat i) (-1)) as [F|_]; [lia|].
  exists i. eexists. split; [reflexivity|].
  cbn [d_stealthAddress d_amount d_ephemeralPk]. rewrite Nat2Z.id.
  split; [exact Hi|]. split; [exact Hf|]. split.
  { intros j Hlt C. specialize (Hj j Hlt).
    apply String.eqb_neq in Hj. apply Hj. f_equal. exact C. }
  split; [exact Hf|]. split; [reflexivity|].
  unfold at_or_0, balance. rewrite Nat2Z.id.
  assert (N0 : forall k, nth k (@nil Z) 0 = 0) by (intros [|k]; reflexivity).
  destruct (meta tx) as [m|]; rewrite ?N0.
  + cbv zeta.
    destruct (Z.gtb_spec (nth i (postBalances m) 0 - nth i (preBalances m) 0) 0);
      repeat split; lia.
  + cbn. repeat split; lia.
Qed.

(** C10. [prepareWithdraw] copies the five fields of its input and adds
    [stealthSecretKey], which is computed from [metaSk] and the input's
    [ephemeralPk]: two inputs with the same [ephemeralPk] get the same
    key. *)
Theorem prepareWithdraw_frame (stealthTx other : StealthTransaction)
  (metaSk metaPk : list byte) (w w' : WithdrawableTransaction) :
  prepareWithdraw stealthTx metaSk metaPk = Ok w ->
  prepareWithdraw other metaSk metaPk = Ok w' ->
  ephemeralPk other = ephemeralPk stealthTx ->
  w_signature w = signature stealthTx
  /\ w_blockTime w = blockTime stealthTx
  /\ w_stealthAddress w = stealthAddress stealthTx
  /\ w_amount w = amount stealthTx
  /\ w_ephemeralPk w = ephemeralPk stealthTx
  /\ (secret <- computeSharedSecretAsRecipient metaSk (ephemeralPk stealthTx) ;;
      recoverStealthSecretKey metaSk secret) = Ok (stealthSecretKey w)
  /\ stealthSecretKey w' = stealthSecretKey w.
Proof.
  unfold prepareWithdraw. intros H H' E. rewrite E in H'.
  destruct (computeSharedSecretAsRecipient metaSk (ephemeralPk stealthTx))
    as [secret|]; cbn [bind] in *; [|discriminate].
  destruct (recoverStealthSecretKey metaSk secret) as [key|];
    cbn [bind] in *; [|discriminate].
  injection H as <-. injection H' as <-. cbn. repeat split.
Qed.

(** The key does not depend on the [metaPk] argument either. *)
Lemma prepareWithdraw_metaPk (stealthTx : StealthTransaction)
  (metaSk metaPk metaPk' : list byte) :
  prepareWithdraw stealthTx metaSk metaPk
  = prepareWithdraw stealthTx metaSk metaPk'.
Proof. reflexivity. Qed.

Lemma scanLoop_not_found (conn : Connection) (metaSk metaPk : list byte)
  (s : string) (rest : list string) (results : list StealthTransaction) :
  getParsedTransaction conn s = Ok None ->
  scanLoop conn metaSk metaPk (s :: rest) results
  = scanLoop conn metaSk metaPk rest results.
Proof. intro H. cbn [scanLoop]. rewrite H. reflexivity. Qed.

Lemma scanLoop_rejected (conn : Connection) (metaSk metaPk : list byte)
  (s : string) (rest : list string) (results : list StealthTransaction)
  (e : exn) :
  getParsedTransaction conn s = Throw e ->
  scanLoop conn metaSk metaPk (s :: rest) results = Throw e.
Proof. intro H. cbn [scanLoop]. rewrite H. reflexivity. Qed.

(** Signatures whose transaction is not found contribute nothing: when no
    fetch is rejected, the loop behaves as on the found signatures alone. *)
Lemma scanLoop_filter_found (conn : Connection) (metaSk metaPk : list byte)
  (sigs : list string) :
  (forall s, In s sigs -> forall e, getParsedTransaction conn s <> Throw e) ->
  forall results,
    scanLoop conn metaSk metaPk sigs results
    = scanLoop conn metaSk metaPk (filter (found conn) sigs) results.
Proof.
  induction sigs as [|s sigs IH]; intros H results; [reflexivity|].
  assert (H' : forall x, In x sigs ->
                 forall e, getParsedTransaction conn x <> Throw e)
    by (intros x Hx; apply H; now right).
  cbn [filter]. unfold found at 1.
  destruct (getParsedTransaction conn s) as [[tx|]|e] eqn:G.
  - cbn [scanLoop]. rewrite G. cbn [bind].
    destruct (negb _); [apply IH, H'|].
    destruct (attemptDecryption tx metaSk metaPk) as [[d|]|]; cbn [bind];
      [apply IH, H' | apply IH, H' | reflexivity].
  - rewrite scanLoop_not_found by exact G. apply IH, H'.
  - exfalso. apply (H s (or_introl eq_refl) e G).
Qed.

Lemma scanLoop_skip_then_reject (conn : Connection)
  (metaSk metaPk : list byte) (skipped : list string) (s : string)
  (rest : list string) (e : exn) :
  (forall x, In x skipped -> getParsedTransaction conn x = Ok None) ->
  getParsedTransaction conn s = Throw e ->
  forall results,
    scanLoop conn metaSk metaPk (skipped ++ s :: rest) results = Throw e.
Proof.
  intros Hk Hr.
  induction skipped as [|x skipped IH]; intro results.
  - apply scanLoop_rejected, Hr.
  - rewrite <- app_comm_cons, scanLoop_not_found by (apply Hk; now left).
    apply IH. intros y Hy. apply Hk. now right.
Qed.

Lemma scanLoop_split (conn : Connection) (metaSk metaPk : list byte)
  (before rest : list string) :
  forall results,
    scanLoop conn metaSk metaPk (before ++ rest) results
    = (r <- scanLoop conn metaSk metaPk before results ;;
       scanLoop conn metaSk metaPk rest r).
Proof.
  induction before as [|s before IH]; intro results; [reflexivity|].
  rewrite <- app_comm_cons. cbn [scanLoop].
  destruct (getParsedTransaction conn s) as [[tx|]|e]; cbn [bind];
    [|apply IH | reflexivity].
  destruct (negb _); [apply IH|].
  destruct (attemptDecryption tx metaSk metaPk) as [[d|]|e]; cbn [bind];
    [apply IH | apply IH | reflexivity].
Qed.

(** C8 (amended). A candidate whose fetch resolves to no transaction is
    skipped: the scan is the scan of the other signatures.  A rejected
    fetch ends the scan call with an exception: that of the signature list,
    or, for a candidate anywhere in the list, the rejection itself once
    the candidates before it have been processed, whatever they yielded,
    and the exception of an earlier candidate otherwise. *)
Theorem scan_fetch_failures (conn : Connection) (metaSk metaPk : list byte)
  (limit : Z) :
  (forall e,
     getSignaturesForAddress conn Config.MEMO_PROGRAM_ID limit = Throw e ->
     scanForStealthTransfers conn metaSk metaPk limit = Throw e)
  /\ (forall before s rest,
        getSignaturesForAddress conn Config.MEMO_PROGRAM_ID limit
        = Ok (before ++ s :: rest) ->
        getParsedTransaction conn s = Ok None ->
        scanForStealthTransfers conn metaSk metaPk limit
        = scanLoop conn metaSk metaPk (before ++ rest) [])
  /\ (forall before s rest e,
        getSignaturesForAddress conn Config.MEMO_PROGRAM_ID limit
        = Ok (before ++ s :: rest) ->
        getParsedTransaction conn s = Throw e ->
        scanForStealthTransfers conn metaSk metaPk limit
        = match scanLoop conn metaSk metaPk before [] with
          | Ok _ => Throw e
          | Throw earlier => Throw earlier
          end)
  /\ (forall sigs,
        getSignaturesForAddress conn Config.MEMO_PROGRAM_ID limit = Ok sigs ->
        (forall s, In s sigs ->
           forall e, getParsedTransaction conn s <> Throw e) ->
        scanForStealthTransfers conn metaSk metaPk limit
        = scanLoop conn metaSk metaPk (filter (found conn) sigs) []).
Proof.
  unfold scanForStealthTransfers. split; [|split; [|split]].
  - intros e H. rewrite H. reflexivity.
  - intros before s rest H Hn. rewrite H. cbn [bind].
    rewrite !scanLoop_split.
    destruct (scanLoop conn metaSk metaPk before []) as [r|e]; cbn [bind];
      [|reflexivity].
    apply scanLoop_not_found, Hn.
  - intros before s rest e H Hr. rewrite H. cbn [bind].
    rewrite scanLoop_split.
    destruct (scanLoop conn metaSk metaPk before []) as [r|e']; cbn [bind];
      [|reflexivity].
    apply scanLoop_rejected, Hr.
  - intros sigs H Hs. rewrite H. cbn [bind].
    apply scanLoop_filter_found, Hs.
Qed.

End WithLib.

Lemma attemptDecryption_amount_witness :
  (exists d,
     attemptDecryption (lib := ZL.lib) ZL.tx_paid_out ZL.metaSk ZL.metaPk
     = Ok (Some d)
     /\ d_amount d = 0)
  /\ (exists d,
        attemptDecryption (lib := ZL.lib) ZL.tx_received ZL.metaSk ZL.metaPk
        = Ok (Some d)
        /\ d_amount d = 500).
Proof.
  assert (Cs : computeSharedSecretAsRecipient (lib := ZL.lib) ZL.metaSk
                 ZL.ephPk = Ok ZL.sharedSecret) by (vm_compute; reflexivity).
  assert (Ds : deriveStealthPubkey (lib := ZL.lib) ZL.metaPk ZL.sharedSecret
               = Ok ZL.stealthPk) by (vm_compute; reflexivity).
  assert (Ne : ZL.sender <> ZL.stealthPk) by (vm_compute; discriminate).
  split.
  - assert (Pm : Memo.parseStealthMemo
                   (match extractMemo ZL.tx_paid_out with
                    | Some m => m
                    | None => ""
                    end) = Some ZL.ephPk) by (vm_compute; reflexivity).
    assert (Hin : In ZL.stealthPk (accountKeys ZL.tx_paid_out))
      by (right; left; reflexivity).
    destruct (attemptDecryption_amount (lib := ZL.lib) ZL.tx_paid_out
                ZL.metaSk ZL.metaPk ZL.ephPk ZL.sharedSecret ZL.stealthPk
                Pm Cs Ds Hin)
      as (idx & d & Ha & Hi & Hn & _ & _ & _ & _ & Hm & _).
    exists d. split; [exact Ha|].
    destruct idx as [|[|idx]];
      [elim Ne; exact Hn | exact Hm | cbn in Hi; lia].
  - assert (Pm : Memo.parseStealthMemo
                   (match extractMemo ZL.tx_received with
                    | Some m => m
                    | None => ""
                    end) = Some ZL.ephPk) by (vm_compute; reflexivity).
    assert (Hin : In ZL.stealthPk (accountKeys ZL.tx_received))
      by (right; left; reflexivity).
    destruct (attemptDecryption_amount (lib := ZL.lib) ZL.tx_received
                ZL.metaSk ZL.metaPk ZL.ephPk ZL.sharedSecret ZL.stealthPk
                Pm Cs Ds Hin)
      as (idx & d & Ha & Hi & Hn & _ & _ & _ & _ & Hm & _).
    exists d. split; [exact Ha|].
    destruct idx as [|[|idx]];
      [elim Ne; exact Hn | exact Hm | cbn in Hi; lia].
Defined.

Lemma prepareWithdraw_frame_witness :
  prepareWithdraw (lib := ZL.lib) ZL.stealthTx ZL.metaSk ZL.metaPk
  = Ok ZL.withdrawable
  /\ w_amount ZL.withdrawable = amount ZL.stealthTx
  /\ derivePublicKey (lib := ZL.lib) (stealthSecretKey ZL.withdrawable)
     = Ok ZL.stealthPk.
Proof.
  split; [vm_compute; reflexivity|].
  split; [|vm_compute; reflexivity].
  apply (prepareWithdraw_frame (lib := ZL.lib) ZL.stealthTx ZL.stealthTx
           ZL.metaSk ZL.metaPk ZL.withdrawable ZL.withdrawable);
    vm_compute; reflexivity.
Defined.

Lemma scan_fetch_failures_witness :
  scanForStealthTransfers (lib := ZL.lib) ZL.conn_missing ZL.metaSk ZL.metaPk 100
  = scanLoop (lib := ZL.lib) ZL.conn_missing ZL.metaSk ZL.metaPk ["s2"] []
  /\ scanForStealthTransfers (lib := ZL.lib) Samples.conn_found_then_rejected
       ZL.metaSk ZL.metaPk 100
     = Throw RpcError.
Proof.
  split.
  - destruct (scan_fetch_failures (lib := ZL.lib) ZL.conn_missing
                ZL.metaSk ZL.metaPk 100) as (_ & H & _).
    apply (H [] "s1" ["s2"]); reflexivity.
  - destruct (scan_fetch_failures (lib := ZL.lib)
                Samples.conn_found_then_rejected ZL.metaSk ZL.metaPk 100)
      as (_ & _ & H & _).
    assert (B : scanLoop (lib := ZL.lib) Samples.conn_found_then_rejected
                  ZL.metaSk ZL.metaPk ["s2"] [] = Ok [ZL.stealthTx])
      by (vm_compute; reflexivity).
    rewrite (H ["s2"] "s1" [] RpcError eq_refl eq_refl), B. reflexivity.
Defined.

(** C8, as first stated, fails when the fetch of one candidate is rejected:
    the whole scan ends with the error and returns no list, although the
    second candidate is a transfer to the recipient. *)
Lemma scan_rejected_fetch_is_fatal :
  scanForStealthTransfers (lib := ZL.lib) ZL.conn_rejecting
    ZL.metaSk ZL.metaPk 100
  = Throw RpcError
  /\ getParsedTransaction ZL.conn_rejecting "s1" = Throw RpcError
  /\ getParsedTransaction ZL.conn_rejecting "s2" = Ok (Some ZL.tx_received).
Proof. repeat split. Qed.

(** The same ledger with the first candidate merely not found yields the
    transfer. *)
Lemma scan_missing_is_skipped :
  scanForStealthTransfers (lib := ZL.lib) ZL.conn_missing
    ZL.metaSk ZL.metaPk 100
  = Ok [ZL.stealthTx].
Proof. vm_compute. reflexivity. Qed.

End IndexerProofs.

(** ** From the sender's address to the recipient's key *)

Module EndToEnd.

Import CurveFacts.

Section WithLaws.
Context {lib : Lib} (laws : Laws lib).

(** X19. The address that [generateStealthAddress] produces for [metaPk] is
    spendable by the holder of [metaSk]: the memo decodes to the ephemeral
    public key, and [prepareWithdraw] on a scan result that carries this key
    recovers a secret key whose public point is the address. *)
Lemma withdraw_key_matches_address (drawn metaSk metaPk : list byte)
  (stealthPk eSk ePk secret : list byte) (memo : string)
  (stealthTx : StealthTransaction) :
  derivePublicKey metaSk = Ok metaPk ->
  generateStealthAddress drawn metaPk = Ok (stealthPk, (eSk, ePk), secret, memo) ->
  ephemeralPk stealthTx = ePk ->
  Memo.parseStealthMemo memo = Some ePk
  /\ exists w s,
       prepareWithdraw stealthTx metaSk metaPk = Ok w
       /\ toScalar (stealthSecretKey w) = Ok s
       /\ toRawBytes (smul s BASE) = stealthPk.
Proof.
  intros Hm Hg Hp.
  apply derivePublicKey_inv in Hm as (m & Em & Rm & ->).
  unfold generateStealthAddress, generateEphemeralKeypair in Hg.
  destruct (toScalar drawn) as [e|] eqn:Ee; cbn [bind] in Hg; [|discriminate].
  destruct (multiply BASE e) as [E|] eqn:Me; cbn [bind fst snd] in Hg;
    [|discriminate].
  apply multiply_inv in Me as [Re ->].
  rewrite (computeSharedSecret_value laws drawn e m) in Hg by (trivial; lia).
  cbn [bind] in Hg.
  destruct (deriveStealthPubkey _ _) as [pk|] eqn:Ed; cbn [bind] in Hg;
    [|discriminate].
  injection Hg as <- <- <- <- <-.
  apply (deriveStealthPubkey_inv laws) in Ed as (d & Dd & Rd & ->).
  split.
  - apply MemoProofs.parseStealthMemo_generated,
      (toRawBytes_length lib laws).
  - pose proof (ScalarFacts.CURVE_n_pos) as Lpos.
    pose proof (Z.mod_pos_bound (m + d) CURVE_n Lpos) as B.
    exists {| w_signature := signature stealthTx;
              w_blockTime := blockTime stealthTx;
              w_stealthAddress := stealthAddress stealthTx;
              w_amount := amount stealthTx;
              w_ephemeralPk := ephemeralPk stealthTx;
              stealthSecretKey := le_bytes 32 ((m + d) mod CURVE_n) |},
           ((m + d) mod CURVE_n).
    cbn [stealthSecretKey]. split; [|split].
    + unfold prepareWithdraw. rewrite Hp.
      rewrite (computeSharedSecretAsRecipient_value laws metaSk e m)
        by (trivial; lia).
      cbn [bind].
      rewrite (recoverStealthSecretKey_Ok metaSk _ m d Em Dd).
      reflexivity.
    + apply EncodeFacts.toScalar_le_bytes, B.
    + symmetry. f_equal. apply (stealth_point laws); lia.
Qed.

End WithLaws.

End EndToEnd.

(* ================================================================= *)
(** * Further properties of the utilities *)

Module UtilsProofs.

Import StringFacts HexFacts.

(** X1. [hexToBytes] undoes [bytesToHex] on buffers of every length, with or
    without ["0x"] in front of the digits, and [bytesToHex] never maps two
    buffers to the same string. *)
Theorem hex_decode_encode (bs : list byte) :
  hexToBytes (bytesToHex bs) = bs
  /\ hexToBytes ("0x" ++ bytesToHex bs)%string = bs
  /\ forall bs', bytesToHex bs = bytesToHex bs' -> bs = bs'.
Proof.
  split; [apply hexToBytes_bytesToHex|].
  split; [rewrite hexToBytes_0x; apply pairs_bytesToHex|].
  intros bs' H.
  rewrite <- (hexToBytes_bytesToHex bs), H. apply hexToBytes_bytesToHex.
Qed.

Lemma lower_hex_char (c : ascii) :
  lowerHex (String c "") = true ->
  exists d, (d < 16)%N /\ c = hexDigit d.
Proof.
  intro H. exists (match hexValue c with Some d => d | None => 0%N end).
  destruct c as [[] [] [] [] [] [] [] []];
    try discriminate H; split; reflexivity.
Qed.

Lemma encode_decode_pair (d1 d2 : N) :
  (d1 < 16)%N -> (d2 < 16)%N ->
  bytesToHex
    [toUint8 (parseInt16 (String (hexDigit d1) (String (hexDigit d2) "")))]
  = String (hexDigit d1) (String (hexDigit d2) "").
Proof.
  intros H1 H2.
  assert (E1 : (d1 = 0 \/ d1 = 1 \/ d1 = 2 \/ d1 = 3 \/ d1 = 4 \/ d1 = 5
                \/ d1 = 6 \/ d1 = 7 \/ d1 = 8 \/ d1 = 9 \/ d1 = 10 \/ d1 = 11
                \/ d1 = 12 \/ d1 = 13 \/ d1 = 14 \/ d1 = 15)%N) by lia.
  assert (E2 : (d2 = 0 \/ d2 = 1 \/ d2 = 2 \/ d2 = 3 \/ d2 = 4 \/ d2 = 5
                \/ d2 = 6 \/ d2 = 7 \/ d2 = 8 \/ d2 = 9 \/ d2 = 10 \/ d2 = 11
                \/ d2 = 12 \/ d2 = 13 \/ d2 = 14 \/ d2 = 15)%N) by lia.
  clear H1 H2.
  repeat (destruct E1 as [->|E1]);
    repeat (destruct E2 as [->|E2]); subst; reflexivity.
Qed.

Lemma lowerHex_cons (c : ascii) (s : string) :
  lowerHex (String c s) = true ->
  lowerHex (String c "") = true /\ lowerHex s = true.
Proof.
  cbn [lowerHex]. intro H. apply andb_true_iff in H as [H1 H2].
  rewrite H1. now split.
Qed.

Lemma lowerHex_no_0x (s : string) :
  lowerHex s = true -> startsWith s "0x" = false.
Proof.
  intro H. destruct s as [|c1 [|c2 r]]; [reflexivity| |];
    unfold startsWith; cbn [String.prefix];
    (destruct (ascii_dec "0" c1) as [_|_]; [|reflexivity]).
  - reflexivity.
  - destruct (ascii_dec "x" c2) as [<-|_]; [|reflexivity].
    apply lowerHex_cons in H as [_ H]. apply lowerHex_cons in H as [H _].
    discriminate H.
Qed.

Lemma encode_pairs (s : string) :
  lowerHex s = true -> Nat.even (String.length s) = true ->
  bytesToHex (pairs s) = s.
Proof.
  enough (G : (lowerHex s = true -> Nat.even (String.length s) = true ->
               bytesToHex (pairs s) = s)
              /\ forall c, lowerHex (String c s) = true ->
                   Nat.even (String.length (String c s)) = true ->
                   bytesToHex (pairs (String c s)) = String c s)
    by apply G.
  induction s as [|c s [IH1 IH2]]; split.
  - reflexivity.
  - intros c _ H. discriminate H.
  - apply IH2.
  - intros c0 L E.
    apply lowerHex_cons in L as [L0 L]. apply lowerHex_cons in L as [L1 L].
    apply lower_hex_char in L0 as (d0 & B0 & ->).
    apply lower_hex_char in L1 as (d1 & B1 & ->).
    cbn [pairs].
    change (?x :: pairs s) with ([x] ++ pairs s).
    rewrite bytesToHex_app, encode_decode_pair by assumption.
    cbn [append]. rewrite IH1; [reflexivity | exact L | exact E].
Qed.

(** X2. On a string of lower-case hexadecimal digits of even length,
    [bytesToHex] undoes [hexToBytes], and the buffer has half as many bytes
    as the string has characters. *)
Theorem hex_encode_decode (s : string) :
  lowerHex s = true -> Nat.even (String.length s) = true ->
  bytesToHex (hexToBytes s) = s
  /\ (2 * List.length (hexToBytes s))%nat = String.length s.
Proof.
  intros L E.
  assert (R : bytesToHex (hexToBytes s) = s).
  { rewrite hexToBytes_clean by (apply lowerHex_no_0x, L).
    apply encode_pairs; assumption. }
  split; [exact R|].
  rewrite <- R at 2. now rewrite length_bytesToHex.
Qed.

Lemma hex_encode_decode_witness :
  bytesToHex (hexToBytes "00ff1a") = "00ff1a".
Proof. apply (hex_encode_decode "00ff1a"); reflexivity. Defined.

Lemma zero_bytes_le_int (bs : list byte) :
  forallb (fun b => Byte.eqb b x00) bs = true <-> le_int bs = 0.
Proof.
  induction bs as [|b bs IH]; [now split|].
  cbn [forallb le_int fold_right]. fold (le_int bs).
  pose proof (ScalarFacts.byteZ_range b) as Rb.
  pose proof (ScalarFacts.le_int_range bs) as Rs.
  rewrite andb_true_iff, IH.
  assert (Z0 : Byte.eqb b x00 = true <-> byteZ b = 0)
    by (destruct b; split; intro H; try reflexivity; discriminate H).
  rewrite Z0. lia.
Qed.

(** X3. [isValidMetaPubkey] accepts exactly the 32-byte buffers that denote
    a non-zero integer. *)
Theorem isValidMetaPubkey_iff (metaPubkey : list byte) :
  isValidMetaPubkey metaPubkey = true
  <-> List.length metaPubkey = 32%nat /\ le_int metaPubkey <> 0.
Proof.
  unfold isValidMetaPubkey.
  destruct (Nat.eqb_spec (List.length metaPubkey) 32) as [e|ne]; cbn [negb].
  - rewrite negb_true_iff, <- not_true_iff_false, zero_bytes_le_int.
    tauto.
  - split; [discriminate | tauto].
Qed.

(** X4. [getDiscriminator] returns a byte array exactly for the instruction
    names of the IDL, and the array is the discriminator that the IDL gives
    for that instruction; it has 8 bytes, and different instructions have
    different discriminators. *)
Theorem getDiscriminator_IDL (name : string) (disc : list byte) :
  (getDiscriminator name = Some (Bytes disc)
   <-> In (name, disc) IDL_instructions)
  /\ (In (name, disc) IDL_instructions ->
      List.length disc = 8%nat
      /\ forall other, In (other, disc) IDL_instructions -> other = name).
Proof.
  split; [split|].
  - unfold getDiscriminator. cbn [ownProperty discriminators].
    destruct (String.eqb_spec name "register_identity") as [->|n1].
    { intro H. injection H as <-. cbn. tauto. }
    destruct (String.eqb_spec name "update_identity") as [->|n2].
    { intro H. injection H as <-. cbn. tauto. }
    destruct (String.eqb_spec name "close_registry") as [->|n3].
    { intro H. injection H as <-. cbn. tauto. }
    destruct (existsb _ _); discriminate.
  - intros [H|[H|[H|[]]]]; injection H as <- <-; reflexivity.
  - intros [H|[H|[H|[]]]]; injection H as <- <-; (split; [reflexivity|]);
      intros other [H|[H|[H|[]]]]; (discriminate H || now injection H).
Qed.

Lemma getDiscriminator_IDL_witness :
  getDiscriminator "update_identity"
  = Some (Bytes [x82; x36; x58; x68; xde; x7c; xee; xfc]).
Proof.
  apply (getDiscriminator_IDL "update_identity"). cbn. tauto.
Defined.

End UtilsProofs.

(* ================================================================= *)
(** * Further properties of the key derivations *)

Module KeyProofs.

Import CurveFacts.

Lemma toScalar_scalarOf (bytes : list byte) :
  bytes <> [] -> toScalar bytes = Ok (scalarOf bytes).
Proof.
  intro H. unfold scalarOf.
  destruct (Nat.eqb_spec (List.length bytes) 64) as [e|ne].
  - apply ScalarFacts.toScalar_wide, e.
  - apply ScalarFacts.toScalar_plain; assumption.
Qed.

Lemma scalarOf_range (bytes : list byte) : 0 <= scalarOf bytes < CURVE_n.
Proof. apply Z.mod_pos_bound, ScalarFacts.CURVE_n_pos. Qed.

Lemma toScalar_Ok_inv (bytes : list byte) (z : Z) :
  toScalar bytes = Ok z -> bytes <> [] /\ z = scalarOf bytes.
Proof.
  intro H. destruct bytes as [|b bs]; [discriminate H|].
  split; [discriminate|].
  rewrite toScalar_scalarOf in H by discriminate. now injection H.
Qed.

(** X5. [toScalar] throws on the empty buffer and on no other: a buffer of
    any other length is read little-endian (its first 32 bytes when it has
    64) and reduced into [0, L). *)
Theorem toScalar_outcome (bytes : list byte) :
  (toScalar bytes = Throw SyntaxError <-> bytes = [])
  /\ (bytes <> [] ->
      toScalar bytes = Ok (scalarOf bytes)
      /\ 0 <= scalarOf bytes < CURVE_n).
Proof.
  split; [split|].
  - intro H. destruct bytes; [reflexivity|].
    rewrite toScalar_scalarOf in H by discriminate. discriminate H.
  - intros ->. reflexivity.
  - intro H. split; [apply toScalar_scalarOf, H | apply scalarOf_range].
Qed.

Lemma toScalar_outcome_witness :
  toScalar (le_bytes 33 (CURVE_n + 9)) = Ok 9.
Proof.
  apply (toScalar_outcome (le_bytes 33 (CURVE_n + 9))). discriminate.
Defined.

(** X7. Two secret keys that denote the same scalar modulo L are the same
    key to the protocol: they have the same public key, the same shared
    secret with every ephemeral key, and recover the same stealth secret
    key. *)
Theorem congruent_secret_keys (a b : list byte) :
  a <> [] -> b <> [] -> scalarOf a = scalarOf b ->
  forall lib : Lib,
    derivePublicKey a = derivePublicKey b
    /\ (forall ephemeralPk,
          computeSharedSecretAsRecipient a ephemeralPk
          = computeSharedSecretAsRecipient b ephemeralPk)
    /\ (forall sharedSecret,
          recoverStealthSecretKey a sharedSecret
          = recoverStealthSecretKey b sharedSecret).
Proof.
  intros Ha Hb E lib.
  assert (T : toScalar a = toScalar b)
    by (rewrite !toScalar_scalarOf, E by assumption; reflexivity).
  unfold derivePublicKey, computeSharedSecretAsRecipient,
    recoverStealthSecretKey.
  rewrite T. repeat split.
Qed.

Lemma congruent_secret_keys_witness :
  ZL.metaSk <> Samples.metaSk_plus_L
  /\ derivePublicKey (lib := ZL.lib) ZL.metaSk
     = derivePublicKey (lib := ZL.lib) Samples.metaSk_plus_L.
Proof.
  split; [vm_compute; discriminate|].
  assert (E : scalarOf ZL.metaSk = scalarOf Samples.metaSk_plus_L)
    by (vm_compute; reflexivity).
  assert (Na : ZL.metaSk <> []) by discriminate.
  assert (Nb : Samples.metaSk_plus_L <> []) by discriminate.
  exact (proj1 (congruent_secret_keys ZL.metaSk Samples.metaSk_plus_L
                  Na Nb E ZL.lib)).
Defined.

Section WithLaws.
Context {lib : Lib} (laws : Laws lib).

(** X6. On a non-empty secret key, [derivePublicKey] throws when the key
    denotes the scalar zero and otherwise returns the 32-byte encoding of
    the scalar's multiple of the base point. *)
Theorem derivePublicKey_outcome (secretKey : list byte) :
  secretKey <> [] ->
  (scalarOf secretKey = 0 -> derivePublicKey secretKey = Throw NobleError)
  /\ (scalarOf secretKey <> 0 ->
      exists pk,
        derivePublicKey secretKey = Ok pk
        /\ List.length pk = 32%nat
        /\ fromHex (bytesToHex pk) = Ok (smul (scalarOf secretKey) BASE)).
Proof.
  intro H. pose proof (toScalar_scalarOf _ H) as E. split.
  - intro Z0. unfold derivePublicKey. rewrite E, Z0. reflexivity.
  - intro NZ. exists (toRawBytes (smul (scalarOf secretKey) BASE)).
    split; [apply derivePublicKey_Ok; assumption|].
    split; [apply (toRawBytes_length lib laws)
           | apply (fromHex_toRawBytes lib laws)].
Qed.

(** X8. On a non-empty meta secret key, [recoverStealthSecretKey] always
    returns: 32 bytes that denote [(metaScalar + domainScalar) mod L], a
    value below L that [toScalar] reads back unchanged. *)
Theorem recoverStealthSecretKey_total (metaSk sharedSecret : list byte) :
  metaSk <> [] ->
  exists stealthSk,
    recoverStealthSecretKey metaSk sharedSecret = Ok stealthSk
    /\ List.length stealthSk = 32%nat
    /\ le_int stealthSk
       = (scalarOf metaSk
          + scalarOf (sha256 (sharedSecret ++ encode Config.STEALTH_DOMAIN)))
         mod CURVE_n
    /\ 0 <= le_int stealthSk < CURVE_n
    /\ toScalar stealthSk = Ok (le_int stealthSk).
Proof.
  intro H.
  set (d := scalarOf (sha256 (sharedSecret ++ encode Config.STEALTH_DOMAIN))).
  set (v := (scalarOf metaSk + d) mod CURVE_n).
  assert (B : 0 <= v < CURVE_n)
    by apply Z.mod_pos_bound, ScalarFacts.CURVE_n_pos.
  assert (V : le_int (le_bytes 32 v) = v).
  { rewrite EncodeFacts.le_int_le_bytes.
    change (256 ^ Z.of_nat 32) with (16 ^ 64).
    pose proof ScalarFacts.CURVE_n_lt. apply Z.mod_small. lia. }
  exists (le_bytes 32 v).
  split.
  { apply recoverStealthSecretKey_Ok; [apply toScalar_scalarOf, H|].
    apply toScalar_scalarOf. intro E.
    apply (f_equal (@List.length byte)) in E.
    rewrite (sha256_length lib laws) in E. discriminate. }
  split; [apply EncodeFacts.length_le_bytes|].
  rewrite V. split; [reflexivity|]. split; [exact B|].
  apply EncodeFacts.toScalar_le_bytes, B.
Qed.

End WithLaws.

Lemma derivePublicKey_outcome_witness :
  derivePublicKey (lib := ZL.lib) (le_bytes 32 CURVE_n) = Throw NobleError.
Proof.
  apply (derivePublicKey_outcome ZLFacts.laws (le_bytes 32 CURVE_n));
    [discriminate | vm_compute; reflexivity].
Defined.

Lemma recoverStealthSecretKey_total_witness :
  exists stealthSk,
    recoverStealthSecretKey (lib := ZL.lib) ZL.metaSk ZL.sharedSecret
    = Ok stealthSk
    /\ List.length stealthSk = 32%nat.
Proof.
  destruct (recoverStealthSecretKey_total ZLFacts.laws ZL.metaSk
              ZL.sharedSecret) as (sk & H1 & H2 & _).
  - discriminate.
  - exists sk. split; [exact H1 | exact H2].
Defined.

End KeyProofs.

(* ================================================================= *)
(** * Further properties of the signer *)

Module SignerMore.

Import CurveFacts KeyProofs.

Lemma signature_halves (Rb Sb : list byte) :
  List.length Rb = 32%nat ->
  firstn 32 (Rb ++ Sb) = Rb /\ skipn 32 (Rb ++ Sb) = Sb.
Proof.
  intro H. split.
  - rewrite firstn_app, H, Nat.sub_diag, firstn_O, app_nil_r.
    apply firstn_all2. rewrite H. apply Nat.le_refl.
  - rewrite skipn_app, H, Nat.sub_diag, skipn_O.
    rewrite skipn_all2 by (rewrite H; apply Nat.le_refl). reflexivity.
Qed.

Lemma le_int_le_bytes_32 (v : Z) :
  0 <= v < CURVE_n -> le_int (le_bytes 32 v) = v.
Proof.
  intro B. rewrite EncodeFacts.le_int_le_bytes.
  change (256 ^ Z.of_nat 32) with (16 ^ 64).
  pose proof ScalarFacts.CURVE_n_lt. apply Z.mod_small. lia.
Qed.

Section WithLaws.
Context {lib : Lib} (laws : Laws lib).

(** The run of [signWithScalar] on two non-zero scalars. *)
Lemma signWithScalar_run (message scalarBytes rBytes : list byte) (s r : Z) :
  toScalar scalarBytes = Ok s -> toScalar rBytes = Ok r ->
  s <> 0 -> r <> 0 ->
  signWithScalar message scalarBytes rBytes
  = Ok (toRawBytes (smul r BASE)
        ++ le_bytes 32
             ((r + le_int (sha512 (toRawBytes (smul r BASE)
                                   ++ toRawBytes (smul s BASE) ++ message))
                   mod CURVE_n * s) mod CURVE_n)).
Proof.
  intros Es Er Hs Hr.
  pose proof ScalarFacts.CURVE_n_pos as Lpos.
  pose proof ScalarFacts.CURVE_n_lt as Lup.
  pose proof (ScalarFacts.toScalar_range _ _ Es) as Bs.
  pose proof (ScalarFacts.toScalar_range _ _ Er) as Br.
  set (R := smul r BASE). set (A := smul s BASE).
  set (h := le_int (sha512 (toRawBytes R ++ toRawBytes A ++ message))).
  assert (Bk : 0 <= h mod CURVE_n < CURVE_n) by (apply Z.mod_pos_bound, Lpos).
  assert (BS : 0 <= (r + h mod CURVE_n * s) mod CURVE_n < CURVE_n)
    by (apply Z.mod_pos_bound, Lpos).
  assert (LR : List.length (toRawBytes R) = 32%nat)
    by apply (toRawBytes_length lib laws).
  assert (Ek : BigInt_0x (bytesToHex
                 (rev (sha512 (toRawBytes R ++ toRawBytes A ++ message))))
               = Ok h).
  { apply ScalarFacts.BigInt_0x_reversed. intro E.
    apply (f_equal (@List.length byte)) in E.
    rewrite (sha512_length lib laws) in E. discriminate. }
  unfold signWithScalar. rewrite Es. cbn [bind].
  rewrite multiply_Ok by lia. cbn [bind].
  rewrite Er. cbn [bind].
  rewrite multiply_Ok by lia. cbn [bind]. cbv zeta.
  fold A R.
  pose proof (SignerProofs.content_concat (toRawBytes R) (toRawBytes A)
                message) as C.
  destruct (u8_set (u8_new _) (toRawBytes R) 0) as [c1|] eqn:C1;
    cbn [bind] in C |- *; [|discriminate].
  destruct (u8_set c1 (toRawBytes A) _) as [c2|] eqn:C2;
    cbn [bind] in C |- *; [|discriminate].
  rewrite C. cbn [bind].
  rewrite Ek. cbn [bind].
  rewrite (ScalarFacts.etc_mod_nonneg h)
    by (trivial; apply ScalarFacts.le_int_range).
  rewrite ScalarFacts.etc_mod_nonneg by nia.
  rewrite EncodeFacts.encode_scalar by lia.
  pose proof (SignerProofs.u8_set_fill [] (toRawBytes R) 32) as F0.
  rewrite LR in F0. cbn [app List.length] in F0.
  change (repeat x00 (32 + 32)) with (u8_new 64) in F0.
  rewrite F0. cbn [bind].
  pose proof (SignerProofs.u8_set_fill (toRawBytes R)
                (le_bytes 32 ((r + h mod CURVE_n * s) mod CURVE_n)) 0) as F.
  rewrite EncodeFacts.length_le_bytes, LR in F.
  change (32 + 0)%nat with 32%nat in F.
  change (repeat x00 0) with (@nil byte) in F. rewrite app_nil_r in F.
  rewrite F. reflexivity.
Qed.

(** What a returned signature says about the two inputs. *)
Lemma signWithScalar_inv (message scalarBytes rBytes sig : list byte) :
  signWithScalar message scalarBytes rBytes = Ok sig ->
  exists s r,
    toScalar scalarBytes = Ok s /\ toScalar rBytes = Ok r
    /\ 0 < s < CURVE_n /\ 0 < r < CURVE_n
    /\ firstn 32 sig = toRawBytes (smul r BASE)
    /\ skipn 32 sig
       = le_bytes 32
           ((r + challenge sig (toRawBytes (smul s BASE)) message * s)
            mod CURVE_n).
Proof.
  intro H.
  destruct (toScalar scalarBytes) as [s|] eqn:Es;
    [|unfold signWithScalar in H; rewrite Es in H; discriminate H].
  destruct (Z.eq_dec s 0) as [->|Hs];
    [unfold signWithScalar in H; rewrite Es in H; discriminate H|].
  pose proof (ScalarFacts.toScalar_range _ _ Es) as Bs.
  destruct (toScalar rBytes) as [r|] eqn:Er.
  2:{ unfold signWithScalar in H. rewrite Es in H. cbn [bind] in H.
      rewrite multiply_Ok in H by lia. cbn [bind] in H.
      rewrite Er in H. discriminate H. }
  destruct (Z.eq_dec r 0) as [->|Hr].
  { unfold signWithScalar in H. rewrite Es in H. cbn [bind] in H.
    rewrite multiply_Ok in H by lia. cbn [bind] in H.
    rewrite Er in H. discriminate H. }
  pose proof (ScalarFacts.toScalar_range _ _ Er) as Br.
  pose proof (signWithScalar_run message scalarBytes rBytes s r Es Er Hs Hr)
    as Run.
  assert (E : sig = toRawBytes (smul r BASE)
                ++ le_bytes 32
                     ((r + le_int (sha512 (toRawBytes (smul r BASE)
                                           ++ toRawBytes (smul s BASE)
                                           ++ message))
                           mod CURVE_n * s) mod CURVE_n))
    by congruence.
  clear H Run. subst sig.
  exists s, r.
  destruct (signature_halves (toRawBytes (smul r BASE))
              (le_bytes 32
                 ((r + le_int (sha512 (toRawBytes (smul r BASE)
                                       ++ toRawBytes (smul s BASE) ++ message))
                       mod CURVE_n * s) mod CURVE_n))
              (toRawBytes_length lib laws _)) as [F S].
  split; [reflexivity|]. split; [reflexivity|].
  split; [lia|]. split; [lia|].
  split; [exact F|].
  unfold challenge. rewrite F. exact S.
Qed.

(** The equation that a verifier checks. *)
Lemma signature_equation (r k s : Z) :
  0 <= r -> 0 <= k -> 0 <= s ->
  smul ((r + k * s) mod CURVE_n) (@BASE lib)
  = add (smul r BASE) (smul k (smul s BASE)).
Proof.
  intros Hr Hk Hs.
  rewrite (smul_mod_order laws), (smul_add laws), (smul_mul laws) by nia.
  reflexivity.
Qed.

(** X9. For a non-empty scalar input and a non-empty nonce,
    [signWithScalar] throws when either denotes the scalar zero, and
    otherwise returns 64 bytes whose first half is the public key of the
    nonce. *)
Theorem signWithScalar_outcome (message scalarBytes rBytes : list byte) :
  scalarBytes <> [] -> rBytes <> [] ->
  (scalarOf scalarBytes = 0 \/ scalarOf rBytes = 0 ->
   signWithScalar message scalarBytes rBytes = Throw NobleError)
  /\ (scalarOf scalarBytes <> 0 -> scalarOf rBytes <> 0 ->
      exists sig,
        signWithScalar message scalarBytes rBytes = Ok sig
        /\ List.length sig = 64%nat
        /\ derivePublicKey rBytes = Ok (firstn 32 sig)).
Proof.
  intros Ns Nr.
  pose proof (toScalar_scalarOf _ Ns) as Es.
  pose proof (toScalar_scalarOf _ Nr) as Er.
  pose proof (scalarOf_range scalarBytes) as Bs.
  split.
  - intros [Z0|Z0].
    + unfold signWithScalar. rewrite Es, Z0. reflexivity.
    + destruct (Z.eq_dec (scalarOf scalarBytes) 0) as [Zs|Hs].
      * unfold signWithScalar. rewrite Es, Zs. reflexivity.
      * unfold signWithScalar. rewrite Es. cbn [bind].
        rewrite multiply_Ok by lia. cbn [bind].
        rewrite Er, Z0. reflexivity.
  - intros Hs Hr. eexists. split.
    + apply signWithScalar_run; eassumption.
    + destruct (signature_halves
                  (toRawBytes (smul (scalarOf rBytes) BASE))
                  (le_bytes 32
                     ((scalarOf rBytes
                       + le_int (sha512
                                   (toRawBytes (smul (scalarOf rBytes) BASE)
                                    ++ toRawBytes
                                         (smul (scalarOf scalarBytes) BASE)
                                    ++ message))
                         mod CURVE_n * scalarOf scalarBytes) mod CURVE_n))
                  (toRawBytes_length lib laws _)) as [F _].
      rewrite F. split.
      * rewrite length_app, (toRawBytes_length lib laws),
          EncodeFacts.length_le_bytes. reflexivity.
      * apply derivePublicKey_Ok; assumption.
Qed.

(** X10. Two signatures made with the same key and the same nonce share
    their first half, and their second halves differ by the difference of
    the two challenges times the secret scalar, modulo L; both challenges
    are computable from the signatures, the public key and the messages. *)
Theorem nonce_reuse_relation
  (message1 message2 scalarBytes rBytes sig1 sig2 : list byte) :
  signWithScalar message1 scalarBytes rBytes = Ok sig1 ->
  signWithScalar message2 scalarBytes rBytes = Ok sig2 ->
  exists A,
    derivePublicKey scalarBytes = Ok A
    /\ firstn 32 sig1 = firstn 32 sig2
    /\ (le_int (skipn 32 sig1) - le_int (skipn 32 sig2)) mod CURVE_n
       = ((challenge sig1 A message1 - challenge sig2 A message2)
          * scalarOf scalarBytes) mod CURVE_n.
Proof.
  intros H1 H2.
  pose proof ScalarFacts.CURVE_n_pos as Lpos.
  apply signWithScalar_inv in H1 as (s & r & Es & Er & Bs & Br & F1 & S1).
  apply signWithScalar_inv in H2
    as (s' & r' & Es' & Er' & _ & _ & F2 & S2).
  rewrite Es in Es'. injection Es' as <-.
  rewrite Er in Er'. injection Er' as <-.
  apply toScalar_Ok_inv in Es as [Ns Vs].
  exists (toRawBytes (smul s BASE)).
  split; [apply derivePublicKey_Ok;
          [rewrite Vs; apply toScalar_scalarOf, Ns | lia]|].
  split; [now rewrite F1, F2|].
  rewrite S1, S2, !le_int_le_bytes_32
    by (apply Z.mod_pos_bound, Lpos).
  rewrite <- Zminus_mod, <- Vs. f_equal. ring.
Qed.

(** A signature made with the recovered key verifies under the stealth
    public key. *)
Lemma stealth_signature_verifies
  (metaSk metaPk sharedSecret stealthPk stealthSk message rBytes sig
     : list byte) :
  derivePublicKey metaSk = Ok metaPk ->
  deriveStealthPubkey metaPk sharedSecret = Ok stealthPk ->
  recoverStealthSecretKey metaSk sharedSecret = Ok stealthSk ->
  signWithScalar message stealthSk rBytes = Ok sig ->
  exists A R,
    fromHex (bytesToHex stealthPk) = Ok A
    /\ fromHex (bytesToHex (firstn 32 sig)) = Ok R
    /\ 0 <= le_int (skipn 32 sig) < CURVE_n
    /\ smul (le_int (skipn 32 sig)) BASE
       = add R (smul (challenge sig stealthPk message) A).
Proof.
  intros Hm Hd Hr Hs.
  pose proof ScalarFacts.CURVE_n_pos as Lpos.
  apply derivePublicKey_inv in Hm as (m & Em & Rm & ->).
  apply (deriveStealthPubkey_inv laws) in Hd as (d & Ed & Rd & ->).
  pose proof (recoverStealthSecretKey_Ok metaSk sharedSecret m d Em Ed)
    as Rec.
  assert (E : stealthSk = le_bytes 32 ((m + d) mod CURVE_n)) by congruence.
  clear Hr Rec. subst stealthSk.
  pose proof (Z.mod_pos_bound (m + d) CURVE_n Lpos) as B.
  apply signWithScalar_inv in Hs as (s & r & Es & Er & Bs & Br & F & S).
  rewrite EncodeFacts.toScalar_le_bytes in Es by exact B.
  injection Es as <-.
  rewrite (stealth_point laws) by lia.
  exists (smul ((m + d) mod CURVE_n) BASE), (smul r BASE).
  split; [apply (fromHex_toRawBytes lib laws)|].
  split; [rewrite F; apply (fromHex_toRawBytes lib laws)|].
  rewrite S.
  assert (Bk : 0 <= challenge sig
                      (toRawBytes (smul ((m + d) mod CURVE_n) BASE)) message
               < CURVE_n) by apply Z.mod_pos_bound, Lpos.
  rewrite le_int_le_bytes_32 by (apply Z.mod_pos_bound, Lpos).
  split; [apply Z.mod_pos_bound, Lpos|].
  apply signature_equation; lia.
Qed.

(** X11. The key that the recipient recovers signs for the stealth address:
    a signature made with it satisfies the verification equation
    [S * G = R + k * A] with [A] decoded from the stealth public key that
    the sender derived, [R] and [S] read from the signature and [k] the
    challenge over [R || stealthPk || message]. *)
Theorem recovered_key_signs_for_address
  (metaSk metaPk sharedSecret stealthPk stealthSk message rBytes sig
     : list byte) :
  derivePublicKey metaSk = Ok metaPk ->
  deriveStealthPubkey metaPk sharedSecret = Ok stealthPk ->
  recoverStealthSecretKey metaSk sharedSecret = Ok stealthSk ->
  signWithScalar message stealthSk rBytes = Ok sig ->
  exists A R,
    fromHex (bytesToHex stealthPk) = Ok A
    /\ fromHex (bytesToHex (firstn 32 sig)) = Ok R
    /\ 0 <= le_int (skipn 32 sig) < CURVE_n
    /\ smul (le_int (skipn 32 sig)) BASE
       = add R (smul (challenge sig stealthPk message) A).
Proof.
  exact (stealth_signature_verifies metaSk metaPk sharedSecret stealthPk
           stealthSk message rBytes sig).
Qed.

End WithLaws.

Lemma signWithScalar_outcome_witness :
  signWithScalar (lib := ZL.lib) ZL.message ZL.metaSk ZL.zeros32
  = Throw NobleError.
Proof.
  assert (Ns : ZL.metaSk <> []) by discriminate.
  assert (Nr : ZL.zeros32 <> []) by discriminate.
  assert (Z0 : scalarOf ZL.zeros32 = 0) by (vm_compute; reflexivity).
  exact (proj1 (signWithScalar_outcome ZLFacts.laws ZL.message ZL.metaSk
                  ZL.zeros32 Ns Nr) (or_intror Z0)).
Defined.

Lemma nonce_reuse_relation_witness :
  firstn 32 Samples.sig1 = firstn 32 Samples.sig2.
Proof.
  assert (H1 : signWithScalar (lib := ZL.lib) ZL.message Samples.stealthSk
                 ZL.nonce = Ok Samples.sig1) by (vm_compute; reflexivity).
  assert (H2 : signWithScalar (lib := ZL.lib) Samples.message2
                 Samples.stealthSk ZL.nonce = Ok Samples.sig2)
    by (vm_compute; reflexivity).
  destruct (nonce_reuse_relation ZLFacts.laws _ _ _ _ _ _ H1 H2)
    as (A & _ & F & _).
  exact F.
Defined.

Lemma recovered_key_signs_for_address_witness :
  exists A R,
    fromHex (Lib := ZL.lib) (bytesToHex ZL.stealthPk) = Ok A
    /\ fromHex (Lib := ZL.lib) (bytesToHex (firstn 32 Samples.sig1)) = Ok R
    /\ smul (le_int (skipn 32 Samples.sig1)) BASE
       = add R (smul (challenge (lib := ZL.lib) Samples.sig1 ZL.stealthPk
                        ZL.message) A).
Proof.
  assert (H1 : derivePublicKey (lib := ZL.lib) ZL.metaSk = Ok ZL.metaPk)
    by (vm_compute; reflexivity).
  assert (H2 : deriveStealthPubkey (lib := ZL.lib) ZL.metaPk ZL.sharedSecret
               = Ok ZL.stealthPk) by (vm_compute; reflexivity).
  assert (H3 : recoverStealthSecretKey (lib := ZL.lib) ZL.metaSk
                 ZL.sharedSecret = Ok Samples.stealthSk)
    by (vm_compute; reflexivity).
  assert (H4 : signWithScalar (lib := ZL.lib) ZL.message Samples.stealthSk
                 ZL.nonce = Ok Samples.sig1) by (vm_compute; reflexivity).
  destruct (recovered_key_signs_for_address ZLFacts.laws _ _ _ _ _ _ _ _
              H1 H2 H3 H4) as (A & R & E1 & E2 & _ & E3).
  exists A, R. split; [exact E1|]. split; [exact E2 | exact E3].
Defined.

End SignerMore.

(* ================================================================= *)
(** * Further properties of the scanner *)

Module ScanProofs.

Import CurveFacts KeyProofs.

Lemma findIndex_absent {A} (f : A -> bool) (l : list A) :
  findIndex f l = -1 -> forall a, In a l -> f a = false.
Proof.
  induction l as [|x l IH]; intros H a Ha; [contradiction|].
  cbn [findIndex] in H. destruct (f x) eqn:Fx; [discriminate H|].
  destruct (IndexerProofs.findIndex_spec f l x) as [E|(i & E & _)].
  - destruct Ha as [<-|Ha]; [exact Fx | now apply IH].
  - rewrite E in H.
    destruct (Z.eqb_spec (Z.of_nat i) (-1)) as [F|_]; lia.
Qed.


Section WithLib.
Context {lib : Lib}.

(** What a match of [attemptDecryption] says. *)
Lemma attemptDecryption_inv (tx : ParsedTransaction)
  (metaSk metaPk : list byte) (d : Detected) :
  attemptDecryption tx metaSk metaPk = Ok (Some d) ->
  0 <= d_amount d
  /\ In (d_stealthAddress d) (accountKeys tx)
  /\ exists secret,
       computeSharedSecretAsRecipient metaSk (d_ephemeralPk d) = Ok secret
       /\ deriveStealthPubkey metaPk secret = Ok (d_stealthAddress d).
Proof.
  unfold attemptDecryption. cbv zeta.
  destruct (Memo.parseStealthMemo _) as [ePk|]; [|discriminate].
  destruct (computeSharedSecretAsRecipient metaSk ePk) as [secret|] eqn:Es;
    cbn [bind]; [|discriminate].
  destruct (deriveStealthPubkey metaPk secret) as [stealth|] eqn:Ed;
    cbn [bind]; [|discriminate].
  destruct (IndexerProofs.findIndex_spec
              (fun a => String.eqb (bytesToHex a) (bytesToHex stealth))
              (accountKeys tx) [])
    as [E|(i & E & Hi & Hf & _)]; rewrite E; [discriminate|].
  destruct (Z.eqb_spec (Z.of_nat i) (-1)) as [F|_]; [lia|].
  intro H. injection H as <-. cbn [d_stealthAddress d_amount d_ephemeralPk].
  rewrite Nat2Z.id.
  apply String.eqb_eq, IndexerProofs.bytesToHex_inj in Hf. subst stealth.
  split; [|split].
  - match goal with
    | |- context [?x >? 0] => destruct (Z.gtb_spec x 0); lia
    end.
  - apply nth_In, Hi.
  - exists secret. split; [exact Es | exact Ed].
Qed.

(** One pass of the loop. *)
Lemma scanLoop_step (conn : Connection) (metaSk metaPk : list byte)
  (s : string) (rest : list string) (acc : list StealthTransaction) :
  scanLoop conn metaSk metaPk (s :: rest) acc
  = (r <- step conn metaSk metaPk s ;;
     scanLoop conn metaSk metaPk rest
       (acc ++ match r with Some t => [t] | None => [] end)).
Proof.
  cbn [scanLoop]. unfold step.
  destruct (getParsedTransaction conn s) as [[tx|]|e]; cbn [bind].
  - destruct (extractMemo tx) as [m|]; cbn [negb].
    + destruct (startsWith m Config.MEMO_PREFIX); cbn [negb bind].
      * destruct (attemptDecryption tx metaSk metaPk) as [[d|]|e];
          cbn [bind option_map]; rewrite ?app_nil_r; reflexivity.
      * cbn [bind]. rewrite ?app_nil_r; reflexivity.
    + cbn [bind]. rewrite ?app_nil_r; reflexivity.
  - cbn [bind]. rewrite ?app_nil_r; reflexivity.
  - reflexivity.
Qed.

Lemma scanLoop_accumulates (conn : Connection) (metaSk metaPk : list byte)
  (sigs : list string) :
  forall acc,
    scanLoop conn metaSk metaPk sigs acc
    = (new <- scanLoop conn metaSk metaPk sigs [] ;; Ok (acc ++ new)).
Proof.
  induction sigs as [|s sigs IH]; intro acc.
  - cbn. now rewrite app_nil_r.
  - rewrite !scanLoop_step.
    destruct (step conn metaSk metaPk s) as [r|e]; cbn [bind]; [|reflexivity].
    rewrite (IH (acc ++ _)), (IH ([] ++ _)).
    destruct (scanLoop conn metaSk metaPk sigs []) as [new|e]; cbn [bind];
      [|reflexivity].
    now rewrite app_assoc.
Qed.

(** X12. Scanning a list of signatures in two parts and appending the
    results is the same as scanning the whole list: the results come in the
    order of the signatures, and the first exception ends either scan. *)
Theorem scanLoop_app (conn : Connection) (metaSk metaPk : list byte)
  (sigs1 sigs2 : list string) :
  scanLoop conn metaSk metaPk (sigs1 ++ sigs2) []
  = (r1 <- scanLoop conn metaSk metaPk sigs1 [] ;;
     r2 <- scanLoop conn metaSk metaPk sigs2 [] ;;
     Ok (r1 ++ r2)).
Proof.
  enough (G : forall acc,
             scanLoop conn metaSk metaPk (sigs1 ++ sigs2) acc
             = (r1 <- scanLoop conn metaSk metaPk sigs1 acc ;;
                scanLoop conn metaSk metaPk sigs2 r1)).
  { rewrite G.
    destruct (scanLoop conn metaSk metaPk sigs1 []) as [r1|e]; cbn [bind];
      [apply scanLoop_accumulates | reflexivity]. }
  induction sigs1 as [|s sigs1 IH]; intro acc; [reflexivity|].
  rewrite <- app_comm_cons, !scanLoop_step.
  destruct (step conn metaSk metaPk s) as [r|e]; cbn [bind];
    [apply IH | reflexivity].
Qed.

Lemma step_signature (conn : Connection) (metaSk metaPk : list byte)
  (s : string) (t : StealthTransaction) :
  step conn metaSk metaPk s = Ok (Some t) ->
  signature t = s
  /\ exists tx d,
       getParsedTransaction conn s = Ok (Some tx)
       /\ attemptDecryption tx metaSk metaPk = Ok (Some d)
       /\ blockTime t = tx_blockTime tx
       /\ stealthAddress t = d_stealthAddress d
       /\ amount t = d_amount d
       /\ ephemeralPk t = d_ephemeralPk d.
Proof.
  unfold step.
  destruct (getParsedTransaction conn s) as [[tx|]|e] eqn:G; cbn [bind];
    try discriminate.
  destruct (extractMemo tx) as [m|]; [|discriminate].
  destruct (startsWith m Config.MEMO_PREFIX); [|discriminate].
  destruct (attemptDecryption tx metaSk metaPk) as [[d|]|e] eqn:A;
    cbn [bind option_map]; try discriminate.
  intro H. injection H as <-. cbn. split; [reflexivity|].
  exists tx, d. cbn. split; [reflexivity|]. split; [exact A|].
  repeat split.
Qed.

Lemma scanLoop_signatures (conn : Connection) (metaSk metaPk : list byte)
  (sigs : list string) :
  forall results,
    scanLoop conn metaSk metaPk sigs [] = Ok results ->
    map signature results = filter (detects conn metaSk metaPk) sigs.
Proof.
  induction sigs as [|s sigs IH]; intros results H.
  - cbn in H. injection H as <-. reflexivity.
  - rewrite scanLoop_step in H. cbn [filter]. unfold detects at 1.
    destruct (step conn metaSk metaPk s) as [[t|]|e] eqn:S; cbn [bind] in H;
      [| |discriminate].
    + rewrite scanLoop_accumulates in H.
      destruct (scanLoop conn metaSk metaPk sigs []) as [new|e];
        cbn [bind] in H; [|discriminate].
      injection H as <-. apply step_signature in S as [Sg _].
      cbn [app map]. rewrite Sg, (IH new eq_refl). reflexivity.
    + cbn [app] in H. now apply IH.
Qed.

(** X13. When a scan returns, the signatures of its results are, in the
    order fetched, exactly the fetched signatures whose transaction is
    found, carries a memo with the protocol prefix and passes trial
    decryption; so there are at most as many results as signatures. *)
Theorem scan_reports_detected (conn : Connection)
  (metaSk metaPk : list byte) (limit : Z)
  (results : list StealthTransaction) :
  scanForStealthTransfers conn metaSk metaPk limit = Ok results ->
  exists sigs,
    getSignaturesForAddress conn Config.MEMO_PROGRAM_ID limit = Ok sigs
    /\ map signature results = filter (detects conn metaSk metaPk) sigs
    /\ (List.length results <= List.length sigs)%nat.
Proof.
  unfold scanForStealthTransfers.
  destruct (getSignaturesForAddress conn _ limit) as [sigs|e]; cbn [bind];
    [|discriminate].
  intro H. exists sigs. split; [reflexivity|].
  pose proof (scanLoop_signatures conn metaSk metaPk sigs results H) as E.
  split; [exact E|].
  rewrite <- (length_map signature results), E. apply filter_length_le.
Qed.

Lemma scanLoop_results (conn : Connection) (metaSk metaPk : list byte)
  (sigs : list string) :
  forall results t,
    scanLoop conn metaSk metaPk sigs [] = Ok results -> In t results ->
    exists s, In s sigs /\ step conn metaSk metaPk s = Ok (Some t).
Proof.
  induction sigs as [|s sigs IH]; intros results t H Ht.
  - cbn in H. injection H as <-. contradiction.
  - rewrite scanLoop_step in H.
    destruct (step conn metaSk metaPk s) as [r|e] eqn:S; cbn [bind] in H;
      [|discriminate].
    rewrite scanLoop_accumulates in H.
    destruct (scanLoop conn metaSk metaPk sigs []) as [new|e] eqn:N;
      cbn [bind] in H; [|discriminate].
    injection H as <-. cbn [app] in Ht.
    apply in_app_or in Ht as [Ht|Ht].
    + destruct r as [t'|]; [|contradiction].
      destruct Ht as [<-|[]]. exists s. split; [now left | exact S].
    + destruct (IH new t eq_refl Ht) as (s' & Hs & St).
      exists s'. split; [now right | exact St].
Qed.

End WithLib.

Section WithLaws.
Context {lib : Lib} (laws : Laws lib).

(** The key that [prepareWithdraw] recovers for a result of trial
    decryption is the key of its stealth address. *)
Lemma prepareWithdraw_matches (t : StealthTransaction)
  (metaSk metaPk secret : list byte) :
  derivePublicKey metaSk = Ok metaPk ->
  computeSharedSecretAsRecipient metaSk (ephemeralPk t) = Ok secret ->
  deriveStealthPubkey metaPk secret = Ok (stealthAddress t) ->
  exists w s,
    prepareWithdraw t metaSk metaPk = Ok w
    /\ toScalar (stealthSecretKey w) = Ok s
    /\ toRawBytes (smul s BASE) = stealthAddress t.
Proof.
  intros Hm Hs Hd.
  pose proof ScalarFacts.CURVE_n_pos as Lpos.
  apply derivePublicKey_inv in Hm as (m & Em & Rm & ->).
  apply (deriveStealthPubkey_inv laws) in Hd as (d & Ed & Rd & Ea).
  pose proof (Z.mod_pos_bound (m + d) CURVE_n Lpos) as B.
  exists {| w_signature := signature t;
            w_blockTime := blockTime t;
            w_stealthAddress := stealthAddress t;
            w_amount := amount t;
            w_ephemeralPk := ephemeralPk t;
            stealthSecretKey := le_bytes 32 ((m + d) mod CURVE_n) |},
         ((m + d) mod CURVE_n).
  cbn [stealthSecretKey]. split; [|split].
  - unfold prepareWithdraw. rewrite Hs. cbn [bind].
    rewrite (recoverStealthSecretKey_Ok metaSk secret m d Em Ed).
    reflexivity.
  - apply EncodeFacts.toScalar_le_bytes, B.
  - rewrite Ea. f_equal. symmetry. apply (stealth_point laws); lia.
Qed.

(** X14. Every result of a scan made with a matching meta key pair is
    spendable: its amount is not negative, its stealth address is an
    account key of the transaction fetched for its signature, and
    [prepareWithdraw] returns for it a secret key whose public point is that
    stealth address. *)
Theorem scan_results_spendable (conn : Connection)
  (metaSk metaPk : list byte) (limit : Z)
  (results : list StealthTransaction) (t : StealthTransaction) :
  derivePublicKey metaSk = Ok metaPk ->
  scanForStealthTransfers conn metaSk metaPk limit = Ok results ->
  In t results ->
  0 <= amount t
  /\ (exists tx,
        getParsedTransaction conn (signature t) = Ok (Some tx)
        /\ In (stealthAddress t) (accountKeys tx)
        /\ blockTime t = tx_blockTime tx)
  /\ exists w s,
       prepareWithdraw t metaSk metaPk = Ok w
       /\ toScalar (stealthSecretKey w) = Ok s
       /\ toRawBytes (smul s BASE) = stealthAddress t.
Proof.
  intros Hm H Ht. unfold scanForStealthTransfers in H.
  destruct (getSignaturesForAddress conn _ limit) as [sigs|e]; cbn [bind] in H;
    [|discriminate].
  destruct (scanLoop_results conn metaSk metaPk sigs results t H Ht)
    as (s & _ & S).
  apply step_signature in S
    as (Sg & tx & d & G & A & Bt & Ea & Eam & Ee).
  apply attemptDecryption_inv in A as (Pos & Hin & secret & Cs & Ds).
  rewrite <- Ea in Hin, Ds. rewrite <- Ee in Cs. rewrite <- Eam in Pos.
  split; [exact Pos|]. split.
  - exists tx. rewrite Sg. repeat split; assumption.
  - apply (prepareWithdraw_matches t metaSk metaPk secret); assumption.
Qed.

(** X15. A transaction that carries the memo of [generateStealthAddress]
    for [metaPk] as its memo and the generated stealth address among its
    account keys is detected by the holder of [metaSk]: trial decryption
    returns that address and the ephemeral public key of the sender. *)
Theorem generated_address_is_detected (drawn metaSk metaPk : list byte)
  (stealthPk eSk ePk secret : list byte) (memo : string)
  (tx : ParsedTransaction) :
  derivePublicKey metaSk = Ok metaPk ->
  generateStealthAddress drawn metaPk
  = Ok (stealthPk, (eSk, ePk), secret, memo) ->
  extractMemo tx = Some memo ->
  In stealthPk (accountKeys tx) ->
  exists d,
    attemptDecryption tx metaSk metaPk = Ok (Some d)
    /\ d_stealthAddress d = stealthPk
    /\ d_ephemeralPk d = ePk
    /\ 0 <= d_amount d.
Proof.
  intros Hm Hg Hx Hin.
  pose proof Hm as Hm'.
  apply derivePublicKey_inv in Hm' as (m & Em & Rm & Epk).
  unfold generateStealthAddress, generateEphemeralKeypair in Hg.
  destruct (toScalar drawn) as [e|] eqn:Ee; cbn [bind] in Hg; [|discriminate].
  destruct (multiply BASE e) as [E|] eqn:Me; cbn [bind fst snd] in Hg;
    [|discriminate].
  apply multiply_inv in Me as [Re ->].
  destruct (computeSharedSecret drawn metaPk) as [sec|] eqn:Cs;
    cbn [bind] in Hg; [|discriminate].
  destruct (deriveStealthPubkey metaPk sec) as [pk|] eqn:Ed;
    cbn [bind] in Hg; [|discriminate].
  assert (E1 : pk = stealthPk) by congruence.
  assert (E2 : toRawBytes (smul e BASE) = ePk) by congruence.
  assert (E3 : sec = secret) by congruence.
  assert (E4 : Memo.generateStealthMemo (toRawBytes (smul e BASE)) = memo)
    by congruence.
  clear Hg. subst pk sec.
  assert (Cr : computeSharedSecretAsRecipient metaSk ePk = Ok secret).
  { rewrite <- E2, <- Cs, Epk.
    rewrite (computeSharedSecret_value laws drawn e m) by (trivial; lia).
    apply (computeSharedSecretAsRecipient_value laws); trivial; lia. }
  assert (Pm : Memo.parseStealthMemo memo = Some ePk).
  { rewrite <- E4, E2. apply MemoProofs.parseStealthMemo_generated.
    rewrite <- E2. apply (toRawBytes_length lib laws). }
  destruct (IndexerProofs.findIndex_spec
              (fun a => String.eqb (bytesToHex a) (bytesToHex stealthPk))
              (accountKeys tx) [])
    as [F|(i & F & _ & Hf & _)].
  { pose proof (findIndex_absent _ _ F stealthPk Hin) as C.
    cbv beta in C. rewrite String.eqb_refl in C. discriminate C. }
  apply String.eqb_eq, IndexerProofs.bytesToHex_inj in Hf.
  unfold attemptDecryption. rewrite Hx, Pm. cbv zeta.
  rewrite Cr. cbn [bind]. rewrite Ed. cbn [bind]. rewrite F.
  destruct (Z.eqb_spec (Z.of_nat i) (-1)) as [C|_]; [lia|].
  eexists. split; [reflexivity|].
  cbn [d_stealthAddress d_ephemeralPk d_amount]. rewrite Nat2Z.id.
  split; [exact Hf|]. split; [reflexivity|].
  match goal with
  | |- context [?x >? 0] => destruct (Z.gtb_spec x 0); lia
  end.
Qed.

End WithLaws.


Lemma scan_reports_detected_witness :
  exists sigs,
    getSignaturesForAddress ZL.conn_missing Config.MEMO_PROGRAM_ID 100
    = Ok sigs
    /\ map signature [ZL.stealthTx]
       = filter (detects (lib := ZL.lib) ZL.conn_missing ZL.metaSk ZL.metaPk)
           sigs.
Proof.
  assert (H : scanForStealthTransfers (lib := ZL.lib) ZL.conn_missing
                ZL.metaSk ZL.metaPk 100 = Ok [ZL.stealthTx])
    by (vm_compute; reflexivity).
  destruct (scan_reports_detected _ _ _ _ _ H) as (sigs & E1 & E2 & _).
  exists sigs. split; [exact E1 | exact E2].
Defined.

Lemma scan_results_spendable_witness :
  exists w s,
    prepareWithdraw (lib := ZL.lib) ZL.stealthTx ZL.metaSk ZL.metaPk = Ok w
    /\ toScalar (stealthSecretKey w) = Ok s
    /\ toRawBytes (smul s (@BASE ZL.lib)) = stealthAddress ZL.stealthTx.
Proof.
  assert (Hm : derivePublicKey (lib := ZL.lib) ZL.metaSk = Ok ZL.metaPk)
    by (vm_compute; reflexivity).
  assert (H : scanForStealthTransfers (lib := ZL.lib) ZL.conn_missing
                ZL.metaSk ZL.metaPk 100 = Ok [ZL.stealthTx])
    by (vm_compute; reflexivity).
  exact (proj2 (proj2 (scan_results_spendable ZLFacts.laws ZL.conn_missing
                         ZL.metaSk ZL.metaPk 100 [ZL.stealthTx] ZL.stealthTx
                         Hm H (or_introl eq_refl)))).
Defined.


End ScanProofs.

(* ================================================================= *)
(** * Properties of [createWithdrawTransaction] *)

Module WithdrawProofs.

Import Sdk SignerMore.

Lemma andThen_Done {A B} (m : outcome A) (k : A -> outcome B) (b : B) :
  andThen m k = Done b -> exists a, m = Done a /\ k a = Done b.
Proof.
  destruct m as [a|f]; cbn [andThen]; [|discriminate].
  intro H. now exists a.
Qed.

Lemma lift_Done {A} (r : result A) (a : A) : lift r = Done a -> r = Ok a.
Proof. destruct r; cbn [lift]; [|discriminate]. intro H. now injection H as ->. Qed.

(** [roundToDouble] keeps the integers that a double holds exactly. *)
Lemma roundToDouble_exact (x : Z) :
  Z.abs x <= 2 ^ 53 -> roundToDouble x = x.
Proof.
  intro H. unfold roundToDouble. cbv zeta.
  destruct (Z.leb_spec (Z.log2 (Z.abs x) - 52) 0) as [_|G]; [reflexivity|].
  assert (P : 0 < Z.abs x).
  { destruct (Z.eq_dec (Z.abs x) 0) as [E|N]; [|lia].
    rewrite E in G. cbn in G. lia. }
  destruct (Z.eq_dec (Z.abs x) (2 ^ 53)) as [E|N].
  - (* 2^53 itself: one bit is dropped, and it is zero *)
    rewrite E.
    replace (Z.log2 (2 ^ 53)) with 53 by (symmetry; apply Z.log2_pow2; lia).
    change (53 - 52) with 1. change (2 ^ 1) with 2.
    change (2 ^ 53 / 2) with (2 ^ 52). change (2 ^ 53 mod 2) with 0.
    change (2 * 0 <? 2) with true. cbv iota.
    destruct (Z.abs_spec x) as [[_ A]|[_ A]]; rewrite E in A.
    + rewrite <- A. reflexivity.
    + assert (X : x = - 2 ^ 53) by lia. rewrite X. reflexivity.
  - assert (L : Z.log2 (Z.abs x) < 53) by (apply Z.log2_lt_pow2; lia). lia.
Qed.

(** Above 2^53 the result is a multiple of the spacing of doubles at [x],
    at most half a spacing away from [x], and has the sign of [x]. *)
Lemma roundToDouble_error (x : Z) :
  let ulp := 2 ^ Z.max 0 (Z.log2 (Z.abs x) - 52) in
  (ulp | roundToDouble x)
  /\ 2 * Z.abs (roundToDouble x - x) <= ulp
  /\ (0 < x -> 0 < roundToDouble x).
Proof.
  cbv zeta. unfold roundToDouble. cbv zeta.
  destruct (Z.leb_spec (Z.log2 (Z.abs x) - 52) 0) as [Le|G].
  - rewrite Z.max_l by lia. change (2 ^ 0) with 1.
    split; [apply Z.divide_1_l|]. split; [lia | intro; assumption].
  - rewrite Z.max_r by lia.
    set (e := Z.log2 (Z.abs x) - 52) in *.
    set (a := Z.abs x) in *.
    assert (U : 0 < 2 ^ e) by (apply Z.pow_pos_nonneg; lia).
    assert (P : 0 < a).
    { destruct (Z.eq_dec a 0) as [E|N]; [|subst a; lia].
      subst e. rewrite E in G. cbn in G. lia. }
    assert (B : 2 ^ e <= a).
    { pose proof (Z.log2_spec a P) as [Lo _].
      assert (2 ^ e <= 2 ^ Z.log2 a) by (apply Z.pow_le_mono_r; lia). lia. }
    set (ulp := 2 ^ e) in *.
    pose proof (Z.div_mod a ulp ltac:(lia)) as D.
    pose proof (Z.mod_pos_bound a ulp U) as R.
    assert (Q : 1 <= a / ulp).
    { apply Z.div_le_lower_bound; lia. }
    set (q := a / ulp) in *. set (r := a mod ulp) in *.
    set (q' := if 2 * r <? ulp then q
               else if ulp <? 2 * r then q + 1
               else if Z.even q then q else q + 1).
    assert (Hq : q <= q' <= q + 1
                 /\ 2 * Z.abs (q' * ulp - a) <= ulp).
    { subst q'. destruct (Z.ltb_spec (2 * r) ulp).
      - split; [lia|]. rewrite D. nia.
      - destruct (Z.ltb_spec ulp (2 * r)).
        + split; [lia|]. rewrite D. nia.
        + destruct (Z.even q); (split; [lia|]); rewrite D; nia. }
    destruct Hq as [Hq He].
    split; [|split].
    + exists (Z.sgn x * q'). ring.
    + destruct (Z.sgn_spec x) as [[Px Sx]|[[Zx Sx]|[Nx Sx]]]; rewrite Sx.
      * assert (x = a) by (subst a; lia). lia.
      * subst a. lia.
      * assert (x = - a) by (subst a; lia). lia.
    + intro Px. rewrite (Z.sgn_pos x Px). nia.
Qed.

(** Two balances for which the subtraction is not exact. *)
Lemma roundToDouble_inexact :
  roundToDouble (2 ^ 57 - FEE_BUFFER) = 2 ^ 57 - 4992
  /\ roundToDouble (2 ^ 56 + 8192 - FEE_BUFFER) = 2 ^ 56 + 8192 - FEE_BUFFER + 8.
Proof. split; vm_compute; reflexivity. Qed.

Section WithLib.
Context {lib : Lib}.

(** What a returned withdraw transaction says about the steps taken. *)
Lemma createWithdrawTransaction_inv (ledger : Ledger)
  (rBytes stealthSecretKey : list byte) (stealthAddress destination : PublicKey)
  (amountLamports : option Z) (tx : VersionedTransaction) (sig : string) :
  createWithdrawTransaction ledger rBytes stealthSecretKey stealthAddress
    destination amountLamports = Done (tx, sig) ->
  exists finalAmount ix blockhash signature,
    match amountLamports with
    | Some a => finalAmount = a
    | None =>
        exists balance,
          getBalance ledger stealthAddress = Ok balance
          /\ FEE_BUFFER < balance
          /\ finalAmount = roundToDouble (balance - FEE_BUFFER)
    end
    /\ transfer ledger stealthAddress destination finalAmount = Ok ix
    /\ getLatestBlockhash ledger = Ok blockhash
    /\ compileAndSerialize ledger stealthAddress blockhash [ix]
       = Ok (vt_message tx)
    /\ signWithScalar (vt_message tx) stealthSecretKey rBytes = Ok signature
    /\ List.length signature = 64%nat
    /\ vt_signatures tx = [(stealthAddress, signature)]
    /\ sendRawTransaction ledger (serializeTransaction ledger tx) = Ok sig.
Proof.
  unfold createWithdrawTransaction. intro H.
  apply andThen_Done in H as (finalAmount & Ha & H).
  apply andThen_Done in H as (ix & Hi & H). apply lift_Done in Hi.
  apply andThen_Done in H as (blockhash & Hb & H). apply lift_Done in Hb.
  apply andThen_Done in H as (msg & Hc & H). apply lift_Done in Hc.
  apply andThen_Done in H as (signature & Hs & H). apply lift_Done in Hs.
  apply andThen_Done in H as (tx' & Ht & H).
  apply andThen_Done in H as (sig' & Hr & H). apply lift_Done in Hr.
  apply andThen_Done in H as (c & _ & H).
  assert (E1 : tx' = tx) by congruence.
  assert (E2 : sig' = sig) by congruence. subst tx' sig'. clear H.
  unfold addSignature in Ht.
  destruct (Nat.eqb_spec (List.length signature) 64) as [L|_];
    [|discriminate Ht].
  assert (Et : tx = {| vt_message := msg;
                       vt_signatures := [(stealthAddress, signature)] |})
    by congruence.
  subst tx. cbn [vt_message vt_signatures].
  exists finalAmount, ix, blockhash, signature.
  split.
  { destruct amountLamports as [a|]; [congruence|].
    apply andThen_Done in Ha as (balance & Hg & Hf). apply lift_Done in Hg.
    exists balance. split; [exact Hg|].
    destruct (Z.leb_spec balance FEE_BUFFER) as [_|Gt]; [discriminate Hf|].
    split; [exact Gt | congruence]. }
  repeat (split; [assumption|]). split; [reflexivity | exact Hr].
Qed.

(** X17. With the amount omitted, [createWithdrawTransaction] fails with
    "Insufficient funds" when the balance of the stealth address is at most
    the fee buffer of 5000; a transaction it returns moves the double
    nearest to the balance minus 5000, which is positive, at most half a
    spacing of doubles away from the balance minus 5000, and equal to it for
    a balance up to 2^53.  With an amount given, a returned transaction
    moves that amount, whatever the balance is.  In both cases the
    transaction carries one 64-byte signature, made by [signWithScalar] over
    its message, and is the one that was sent. *)
Theorem withdraw_amount_rule (ledger : Ledger)
  (rBytes stealthSecretKey : list byte) (stealthAddress destination : PublicKey)
  (amountLamports : option Z) :
  (forall balance,
     amountLamports = None ->
     getBalance ledger stealthAddress = Ok balance ->
     balance <= 5000 ->
     createWithdrawTransaction ledger rBytes stealthSecretKey stealthAddress
       destination amountLamports
     = Failed (InsufficientFunds balance 5000))
  /\ (forall tx sig,
        createWithdrawTransaction ledger rBytes stealthSecretKey
          stealthAddress destination amountLamports = Done (tx, sig) ->
        exists finalAmount ix blockhash signature,
          match amountLamports with
          | Some a => finalAmount = a
          | None =>
              exists balance,
                getBalance ledger stealthAddress = Ok balance
                /\ 5000 < balance
                /\ finalAmount = roundToDouble (balance - 5000)
                /\ 0 < finalAmount
                /\ 2 * Z.abs (finalAmount - (balance - 5000))
                   <= 2 ^ Z.max 0 (Z.log2 (balance - 5000) - 52)
                /\ (balance <= 2 ^ 53 -> finalAmount = balance - 5000)
          end
          /\ transfer ledger stealthAddress destination finalAmount = Ok ix
          /\ getLatestBlockhash ledger = Ok blockhash
          /\ compileAndSerialize ledger stealthAddress blockhash [ix]
             = Ok (vt_message tx)
          /\ signWithScalar (vt_message tx) stealthSecretKey rBytes
             = Ok signature
          /\ List.length signature = 64%nat
          /\ vt_signatures tx = [(stealthAddress, signature)]
          /\ sendRawTransaction ledger (serializeTransaction ledger tx)
             = Ok sig).
Proof.
  split.
  - intros balance -> Hg Hb. unfold createWithdrawTransaction.
    rewrite Hg. cbn [lift andThen].
    destruct (Z.leb_spec balance FEE_BUFFER) as [_|Gt];
      [reflexivity | unfold FEE_BUFFER in Gt; lia].
  - intros tx sig H.
    destruct (createWithdrawTransaction_inv _ _ _ _ _ _ _ _ H)
      as (finalAmount & ix & blockhash & signature & Ha & Rest).
    exists finalAmount, ix, blockhash, signature.
    split; [|exact Rest].
    destruct amountLamports as [a|]; [exact Ha|].
    destruct Ha as (balance & Hg & Gt & Hf). unfold FEE_BUFFER in Gt, Hf.
    exists balance. split; [exact Hg|]. split; [exact Gt|].
    split; [exact Hf|].
    destruct (roundToDouble_error (balance - 5000)) as (_ & He & Hp).
    rewrite (Z.abs_eq (balance - 5000)) in He by lia.
    rewrite Hf. split; [apply Hp; lia|]. split; [exact He|].
    intro Hb. apply roundToDouble_exact. lia.
Qed.

End WithLib.

Section WithLaws.
Context {lib : Lib} (laws : Laws lib).

(** X18. A withdraw transaction built with the key that the recipient
    recovered for a stealth address carries a signature that verifies under
    that address: [S * G = R + k * A] holds with [A] decoded from the
    address, [R] and [S] read from the signature and [k] the challenge over
    [R], the address and the serialized message. *)
Theorem withdraw_signature_verifies (ledger : Ledger)
  (metaSk metaPk sharedSecret stealthSk rBytes : list byte)
  (stealthAddress destination : PublicKey) (amountLamports : option Z)
  (tx : VersionedTransaction) (sig : string) :
  derivePublicKey metaSk = Ok metaPk ->
  deriveStealthPubkey metaPk sharedSecret = Ok stealthAddress ->
  recoverStealthSecretKey metaSk sharedSecret = Ok stealthSk ->
  createWithdrawTransaction ledger rBytes stealthSk stealthAddress
    destination amountLamports = Done (tx, sig) ->
  exists signature A R,
    vt_signatures tx = [(stealthAddress, signature)]
    /\ List.length signature = 64%nat
    /\ fromHex (bytesToHex stealthAddress) = Ok A
    /\ fromHex (bytesToHex (firstn 32 signature)) = Ok R
    /\ 0 <= le_int (skipn 32 signature) < CURVE_n
    /\ smul (le_int (skipn 32 signature)) BASE
       = add R (smul (challenge signature stealthAddress (vt_message tx)) A).
Proof.
  intros Hm Hd Hr H.
  apply createWithdrawTransaction_inv in H
    as (amt & ix & bh & sg & _ & _ & _ & _ & Hs & L & V & _).
  destruct (stealth_signature_verifies laws _ _ _ _ _ _ _ _ Hm Hd Hr Hs)
    as (A & R & E1 & E2 & B & Eq).
  exists sg, A, R. repeat (split; [assumption|]). exact Eq.
Qed.

End WithLaws.

Lemma withdraw_amount_rule_witness :
  createWithdrawTransaction (lib := ZL.lib) (Samples.ledger 5000) ZL.nonce
    Samples.stealthSk ZL.stealthPk ZL.sender None
  = Failed (InsufficientFunds 5000 5000)
  /\ exists signature,
       signWithScalar (lib := ZL.lib) (vt_message (fst Samples.withdrawn))
         Samples.stealthSk ZL.nonce = Ok signature
       /\ vt_signatures (fst Samples.withdrawn) = [(ZL.stealthPk, signature)].
Proof.
  split.
  - refine (proj1 (withdraw_amount_rule (lib := ZL.lib) (Samples.ledger 5000)
                     ZL.nonce Samples.stealthSk ZL.stealthPk ZL.sender None)
              5000 eq_refl eq_refl _).
    discriminate.
  - assert (H : createWithdrawTransaction (lib := ZL.lib)
                  (Samples.ledger 7500) ZL.nonce Samples.stealthSk
                  ZL.stealthPk ZL.sender None
                = Done (fst Samples.withdrawn, snd Samples.withdrawn))
      by (vm_compute; reflexivity).
    destruct (proj2 (withdraw_amount_rule (lib := ZL.lib)
                       (Samples.ledger 7500) ZL.nonce Samples.stealthSk
                       ZL.stealthPk ZL.sender None) _ _ H)
      as (amt & ix & bh & sg & _ & _ & _ & _ & Hs & _ & V & _).
    exists sg. split; [exact Hs | exact V].
Defined.

Lemma withdraw_signature_verifies_witness :
  exists signature,
    vt_signatures (fst Samples.withdrawn) = [(ZL.stealthPk, signature)]
    /\ List.length signature = 64%nat.
Proof.
  assert (H1 : derivePublicKey (lib := ZL.lib) ZL.metaSk = Ok ZL.metaPk)
    by (vm_compute; reflexivity).
  assert (H2 : deriveStealthPubkey (lib := ZL.lib) ZL.metaPk ZL.sharedSecret
               = Ok ZL.stealthPk) by (vm_compute; reflexivity).
  assert (H3 : recoverStealthSecretKey (lib := ZL.lib) ZL.metaSk
                 ZL.sharedSecret = Ok Samples.stealthSk)
    by (vm_compute; reflexivity).
  assert (H4 : createWithdrawTransaction (lib := ZL.lib)
                 (Samples.ledger 7500) ZL.nonce Samples.stealthSk
                 ZL.stealthPk ZL.sender None
               = Done (fst Samples.withdrawn, snd Samples.withdrawn))
    by (vm_compute; reflexivity).
  destruct (withdraw_signature_verifies ZLFacts.laws _ _ _ _ _ _ _ _ _ _ _
              H1 H2 H3 H4) as (sg & A & R & E1 & E2 & _).
  exists sg. split; [exact E1 | exact E2].
Defined.

End WithdrawProofs.

(* ================================================================= *)
(** * Examples of the further properties in the small model *)

Module MoreExamples.

Lemma hex_decode_encode_witness :
  hexToBytes ("0x" ++ bytesToHex ZL.message)%string = ZL.message.
Proof. exact (proj1 (proj2 (UtilsProofs.hex_decode_encode ZL.message))). Defined.

Lemma isValidMetaPubkey_iff_witness :
  isValidMetaPubkey ZL.metaPk = true /\ isValidMetaPubkey ZL.zeros32 = false.
Proof.
  split.
  - apply (proj2 (UtilsProofs.isValidMetaPubkey_iff ZL.metaPk)).
    split; [reflexivity | vm_compute; discriminate].
  - reflexivity.
Defined.

Lemma withdraw_key_matches_address_witness :
  Memo.parseStealthMemo Samples.memo = Some ZL.ephPk
  /\ exists w s,
       prepareWithdraw (lib := ZL.lib) ZL.stealthTx ZL.metaSk ZL.metaPk = Ok w
       /\ toScalar (stealthSecretKey w) = Ok s
       /\ toRawBytes (smul s (@BASE ZL.lib)) = ZL.stealthPk.
Proof.
  assert (meta_key_pair :
            derivePublicKey (lib := ZL.lib) ZL.metaSk = Ok ZL.metaPk)
    by (vm_compute; reflexivity).
  assert (generated_address :
            generateStealthAddress (lib := ZL.lib) ZL.ephSk ZL.metaPk
            = Ok (ZL.stealthPk, (ZL.ephSk, ZL.ephPk), ZL.sharedSecret,
                  Samples.memo))
    by (vm_compute; reflexivity).
  exact (EndToEnd.withdraw_key_matches_address ZLFacts.laws ZL.ephSk
           ZL.metaSk ZL.metaPk ZL.stealthPk ZL.ephSk ZL.ephPk
           ZL.sharedSecret Samples.memo ZL.stealthTx
           meta_key_pair generated_address eq_refl).
Defined.

Lemma generated_address_is_detected_witness :
  exists d,
    attemptDecryption (lib := ZL.lib) ZL.tx_received ZL.metaSk ZL.metaPk
    = Ok (Some d)
    /\ d_stealthAddress d = ZL.stealthPk
    /\ d_ephemeralPk d = ZL.ephPk
    /\ 0 <= d_amount d.
Proof.
  assert (meta_key_pair :
            derivePublicKey (lib := ZL.lib) ZL.metaSk = Ok ZL.metaPk)
    by (vm_compute; reflexivity).
  assert (generated_address :
            generateStealthAddress (lib := ZL.lib) ZL.ephSk ZL.metaPk
            = Ok (ZL.stealthPk, (ZL.ephSk, ZL.ephPk), ZL.sharedSecret,
                  Samples.memo))
    by (vm_compute; reflexivity).
  refine (ScanProofs.generated_address_is_detected ZLFacts.laws ZL.ephSk
            ZL.metaSk ZL.metaPk ZL.stealthPk ZL.ephSk ZL.ephPk
            ZL.sharedSecret Samples.memo ZL.tx_received
            meta_key_pair generated_address _ _).
  - vm_compute. reflexivity.
  - right. left. reflexivity.
Defined.

End MoreExamples.
